(** * AI Grammar Enhancer: the five correction stages and the pipeline

    A shallow embedding of [src/pipeline.py], [src/utils.py] and the stage
    modules [phase6_subject_verb.py] ... [phase10_articles.py], followed by
    the properties of the specification that were checked on it.

    Conventions of the embedding.
    - Python [str] is [string]; the case maps, [str.strip], [\s], [\w] and
      [\b] are the ASCII ones, and a byte above 127 is a caseless non-word
      character.  Offsets and lengths count bytes.
    - Python [float] is the kernel's binary64 [float]; [round] and [sum] are
      written out in [PyFloat].
    - The patterns given to [re] are terms of [Re.regex], run by a
      backtracking matcher with Python's priorities.
    - The spaCy model ([nlp]), LanguageTool ([tool]) and Gramformer ([gf])
      are external: every stage takes them as parameters.  A token carries
      the attributes the stages read.
    - A call that may raise returns an [outcome]; a [while] loop whose
      termination depends on the annotator runs on fuel.
    - A [dict] with a fixed set of keys is a record whose fields are
      options, [None] being an absent key.
    - Printing, logging and the JSON file that [run] writes inside a
      [try] block are left out. *)

From Stdlib Require Import ZArith String Ascii List Bool Lia PeanoNat.
From Stdlib Require Import Floats.
From Stdlib Require QArith Qminmax Qabs.
Import ListNotations.

Set Warnings "-inexact-float".

Open Scope string_scope.

(** ** Outcomes of calls *)

(** [Raise e] is an instance of Python's [Exception] (what [except Exception]
    catches); [OutOfFuel] marks a loop of the model that was cut short. *)
Inductive outcome (A : Type) : Type :=
| Ok (a : A)
| Raise (e : string)
| OutOfFuel.

Arguments Ok {A} a.
Arguments Raise {A} e.
Arguments OutOfFuel {A}.

Definition bind {A B} (m : outcome A) (f : A -> outcome B) : outcome B :=
  match m with
  | Ok a => f a
  | Raise e => Raise e
  | OutOfFuel => OutOfFuel
  end.

Declare Scope outcome_scope.
Delimit Scope outcome_scope with outcome.
Notation "x <- m ;; k" := (bind m (fun x => k))
  (at level 61, m at next level, right associativity) : outcome_scope.

(** ** Python strings (ASCII model) *)

Module PyStr.

Definition code (c : ascii) : N := N_of_ascii c.

Definition in_range (lo hi : N) (c : ascii) : bool :=
  (N.leb lo (code c) && N.leb (code c) hi)%bool.

Definition char_isupper (c : ascii) : bool := in_range 65 90 c.
Definition char_islower (c : ascii) : bool := in_range 97 122 c.
Definition char_isdigit (c : ascii) : bool := in_range 48 57 c.

(** [str.isspace] on one character: space, [\t \n \v \f \r], [\x1c]-[\x1f]. *)
Definition char_isspace (c : ascii) : bool :=
  (N.eqb (code c) 32 || in_range 9 13 c || in_range 28 31 c)%bool.

(** [\w]. *)
Definition char_isword (c : ascii) : bool :=
  (char_isupper c || char_islower c || char_isdigit c || N.eqb (code c) 95)%bool.

Definition char_lower (c : ascii) : ascii :=
  if char_isupper c then ascii_of_N (code c + 32) else c.

Definition char_upper (c : ascii) : ascii :=
  if char_islower c then ascii_of_N (code c - 32) else c.

Fixpoint lower (s : string) : string :=
  match s with
  | EmptyString => EmptyString
  | String c s' => String (char_lower c) (lower s')
  end.

Fixpoint upper (s : string) : string :=
  match s with
  | EmptyString => EmptyString
  | String c s' => String (char_upper c) (upper s')
  end.

(** [str.capitalize]: first character upper-cased, the rest lower-cased. *)
Definition capitalize (s : string) : string :=
  match s with
  | EmptyString => EmptyString
  | String c s' => String (char_upper c) (lower s')
  end.

Fixpoint has_upper (s : string) : bool :=
  match s with
  | EmptyString => false
  | String c s' => (char_isupper c || has_upper s')%bool
  end.

Fixpoint has_lower (s : string) : bool :=
  match s with
  | EmptyString => false
  | String c s' => (char_islower c || has_lower s')%bool
  end.

(** [str.isupper]: at least one cased character and no lower-case one. *)
Definition isupper (s : string) : bool := (has_upper s && negb (has_lower s))%bool.

Fixpoint lstrip (s : string) : string :=
  match s with
  | EmptyString => EmptyString
  | String c s' => if char_isspace c then lstrip s' else s
  end.

Fixpoint rstrip (s : string) : string :=
  match s with
  | EmptyString => EmptyString
  | String c s' =>
      match rstrip s' with
      | EmptyString => if char_isspace c then EmptyString else String c EmptyString
      | r => String c r
      end
  end.

(** [str.strip()]. *)
Definition strip (s : string) : string := rstrip (lstrip s).

(** [s.startswith(p)]. *)
Fixpoint startswith (s p : string) : bool :=
  match p, s with
  | EmptyString, _ => true
  | String _ _, EmptyString => false
  | String a p', String b s' => (Ascii.eqb a b && startswith s' p')%bool
  end.

Definition len (s : string) : nat := String.length s.

(** [s.endswith(p)]. *)
Definition endswith (s p : string) : bool :=
  (Nat.leb (len p) (len s) &&
   String.eqb (substring (len s - len p) (len p) s) p)%bool.

(** [needle in haystack]. *)
Fixpoint contains (haystack needle : string) : bool :=
  (startswith haystack needle ||
   match haystack with
   | EmptyString => false
   | String _ h' => contains h' needle
   end)%bool.

(** [x in xs] for a list or a set of strings. *)
Definition mem (x : string) (xs : list string) : bool :=
  existsb (String.eqb x) xs.

(** [sep.join(parts)]. *)
Definition join (sep : string) (parts : list string) : string :=
  String.concat sep parts.

(** [s[i]] with [0 <= i]. *)
Definition index (s : string) (i : nat) : option ascii := String.get i s.

(** [s[:n]] with [0 <= n]. *)
Definition take (n : nat) (s : string) : string := substring 0 n s.

Fixpoint last_char (s : string) : option ascii :=
  match s with
  | EmptyString => None
  | String c EmptyString => Some c
  | String _ s' => last_char s'
  end.

(** Look-up in a [dict] literal, kept in source order. *)
Fixpoint assoc {V : Type} (k : string) (d : list (string * V)) : option V :=
  match d with
  | [] => None
  | (k', v) :: d' => if String.eqb k k' then Some v else assoc k d'
  end.

End PyStr.

(** ** Python's [re], for the patterns of this repository *)

Module Re.
Import PyStr.

(** Patterns. [Grp n r] is the [n]-th capturing group. *)
Inductive regex : Type :=
| Chr (c : ascii)
| Cls (p : ascii -> bool)
| Eps
| Cat (a b : regex)
| Alt (a b : regex)
| Star (a : regex)
| Grp (n : nat) (a : regex)
| Bol
| Eol
| WordB.

Fixpoint Lit (s : string) : regex :=
  match s with
  | EmptyString => Eps
  | String c EmptyString => Chr c
  | String c s' => Cat (Chr c) (Lit s')
  end.

(** The characters with a meaning of their own in a pattern.  A text
    without any of them, spliced into a pattern, is the pattern [Lit] of
    that text. *)
Definition metachars : string := ".^$*+?{}[]\|()".

Definition is_literal (s : string) : bool :=
  (negb (String.eqb s "")
   && forallb (fun c => negb (existsb (Ascii.eqb c) (list_ascii_of_string metachars)))
              (list_ascii_of_string s))%bool.

Definition Plus (a : regex) : regex := Cat a (Star a).
Definition Opt (a : regex) : regex := Alt a Eps.
Definition AtLeast2 (a : regex) : regex := Cat a (Cat a (Star a)).

Fixpoint Alts (rs : list regex) : regex :=
  match rs with
  | [] => Cls (fun _ => false)
  | [r] => r
  | r :: rs' => Alt r (Alts rs')
  end.

(** [\s], [\w] and bracket classes. *)
Definition ws : regex := Cls char_isspace.
Definition word : regex := Cls char_isword.
Definition OneOf (chars : string) : regex :=
  Cls (fun c => existsb (Ascii.eqb c) (list_ascii_of_string chars)).

(** Matcher state: the character before the cursor, the text from the
    cursor on, and the groups captured so far. *)
Record mstate : Type := MState {
  prev : option ascii;
  rest : string;
  groups : list (nat * string)
}.

Definition captured (before after : mstate) : string :=
  take (len (rest before) - len (rest after)) (rest before).

Definition is_word_opt (c : option ascii) : bool :=
  match c with
  | Some c => char_isword c
  | None => false
  end.

Definition next_char (s : string) : option ascii :=
  match s with
  | EmptyString => None
  | String c _ => Some c
  end.

Section Matcher.

(** [re.IGNORECASE]. *)
Variable ignorecase : bool.

Definition chr_match (c x : ascii) : bool :=
  if ignorecase then Ascii.eqb (char_lower c) (char_lower x) else Ascii.eqb c x.

Definition cls_match (p : ascii -> bool) (x : ascii) : bool :=
  if ignorecase then (p x || p (char_lower x) || p (char_upper x))%bool else p x.

Definition step1 (ok : ascii -> bool) (st : mstate)
  (k : mstate -> option mstate) : option mstate :=
  match rest st with
  | String x xs => if ok x then k (MState (Some x) xs (groups st)) else None
  | EmptyString => None
  end.

(** The greedy loop of [Star]: one more turn of the body [m], which must
    consume something, before the continuation [k] is tried. *)
Definition star_iter (m : mstate -> (mstate -> option mstate) -> option mstate)
  (k : mstate -> option mstate) : nat -> mstate -> option mstate :=
  fix iter (fuel : nat) (st : mstate) {struct fuel} : option mstate :=
    match fuel with
    | O => k st
    | S fuel' =>
        match m st (fun st' =>
                if Nat.ltb (len (rest st')) (len (rest st))
                then iter fuel' st' else None) with
        | Some res => Some res
        | None => k st
        end
    end.

(** Backtracking matcher in continuation style: alternatives are tried in
    order and [Star] is greedy, as in Python. *)
Fixpoint rmatch (r : regex) (st : mstate) (k : mstate -> option mstate)
  {struct r} : option mstate :=
  match r with
  | Chr c => step1 (chr_match c) st k
  | Cls p => step1 (cls_match p) st k
  | Eps => k st
  | Cat a b => rmatch a st (fun st' => rmatch b st' k)
  | Alt a b =>
      match rmatch a st k with
      | Some res => Some res
      | None => rmatch b st k
      end
  | Star a => star_iter (rmatch a) k (S (len (rest st))) st
  | Grp n a =>
      rmatch a st (fun st' =>
        k (MState (prev st') (rest st') ((n, captured st st') :: groups st')))
  | Bol => match prev st with None => k st | Some _ => None end
  | Eol =>
      match rest st with
      | EmptyString => k st
      | String c EmptyString => if N.eqb (code c) 10 then k st else None
      | _ => None
      end
  | WordB =>
      if xorb (is_word_opt (prev st)) (is_word_opt (next_char (rest st)))
      then k st else None
  end.

(** One attempt at the cursor: the matched text, the groups, what follows. *)
Definition match_here (r : regex) (p : option ascii) (s : string)
  : option (string * list (nat * string) * string) :=
  match rmatch r (MState p s []) (fun st => Some st) with
  | Some st' => Some (take (len s - len (rest st')) s, groups st', rest st')
  | None => None
  end.

(** [m.group(n)]. *)
Fixpoint group (n : nat) (gs : list (nat * string)) : string :=
  match gs with
  | [] => EmptyString
  | (m, s) :: gs' => if Nat.eqb n m then s else group n gs'
  end.

Fixpoint search_from (fuel : nat) (r : regex) (p : option ascii) (s : string)
  : bool :=
  match match_here r p s with
  | Some _ => true
  | None =>
      match fuel, s with
      | S fuel', String c s' => search_from fuel' r (Some c) s'
      | _, _ => false
      end
  end.

(** [bool(re.search(r, s))]. *)
Definition search (r : regex) (s : string) : bool :=
  search_from (len s) r None s.

(** [bool(re.match(r, s))]. *)
Definition match_ (r : regex) (s : string) : bool :=
  match match_here r None s with
  | Some _ => true
  | None => false
  end.

(** [re.sub(r, repl, s)], [repl] receiving the groups of each match.  No
    pattern of the repository matches the empty string; an empty match is
    replaced and the scan moves on by one character. *)
Fixpoint sub_from (fuel : nat) (r : regex)
  (repl : list (nat * string) -> string) (p : option ascii) (s : string)
  : string :=
  match fuel with
  | O => s
  | S fuel' =>
      let skip :=
        match s with
        | EmptyString => EmptyString
        | String c s' => String c (sub_from fuel' r repl (Some c) s')
        end in
      match match_here r p s with
      | Some (m, gs, s') =>
          match m with
          | EmptyString => repl gs ++ skip
          | _ => repl gs ++ sub_from fuel' r repl (last_char m) s'
          end
      | None => skip
      end
  end.

Definition sub (r : regex) (repl : list (nat * string) -> string) (s : string)
  : string :=
  sub_from (S (len s)) r repl None s.

End Matcher.

End Re.

(** ** Python floats *)

Module PyFloat.

Open Scope float_scope.

Definition of_Z (z : Z) : float :=
  if (z <? 0)%Z then - of_uint63 (Uint63.of_Z (- z)) else of_uint63 (Uint63.of_Z z).

Definition of_nat (n : nat) : float := of_Z (Z.of_nat n).

(** [num / den] rounded to the nearest integer, ties to even ([0 < den]). *)
Definition div_half_even (num den : Z) : Z :=
  let q := (num / den)%Z in
  match (2 * (num mod den) ?= den)%Z with
  | Lt => q
  | Gt => (q + 1)%Z
  | Eq => if Z.even q then q else (q + 1)%Z
  end.

(** [round(x, ndigits)]: the exact binary value of [x] is rounded to
    [ndigits] decimals, ties to even, and the decimal result is converted
    back to the nearest float. *)
Definition round (x : float) (ndigits : nat) : float :=
  match Prim2SF x with
  | S754_finite s m e =>
      let p := (10 ^ Z.of_nat ndigits)%Z in
      let n := if (0 <=? e)%Z then (Zpos m * p * 2 ^ e)%Z
               else div_half_even (Zpos m * p) (2 ^ (- e)) in
      if (2 ^ 53 <=? n)%Z then x
      else let r := of_Z n / of_Z p in if s then - r else r
  | _ => x
  end.

(** [min(a, b)] on floats. *)
Definition min (a b : float) : float := if ltb b a then b else a.

(** [sum(xs)] of floats, accumulated from the left. *)
Definition sum (xs : list float) : float := fold_left add xs 0.

End PyFloat.

(** ** Data model *)

(** A spaCy token.  [children] and [subtree] hold positions in the
    document, in document order. *)
Module Token.
Record t : Type := Make {
  text : string;
  whitespace_ : string;
  pos_ : string;
  tag_ : string;
  dep_ : string;
  lemma_ : string;
  children : list nat;
  subtree : list nat;
  is_punct : bool;
  is_space : bool
}.

Definition text_with_ws (tok : t) : string := text tok ++ whitespace_ tok.

(** Truth value of a token: spaCy tokens have [__len__], the length of
    their text. *)
Definition truthy (tok : t) : bool := negb (String.eqb (text tok) "").
End Token.

(** A parsed document: its tokens and the texts of its sentences. *)
Record Doc : Type := {
  doc_tokens : list Token.t;
  sents : list string
}.

(** The annotator, [nlp(text)]. *)
Definition Annotator : Type := string -> Doc.

(** LanguageTool is used through [tool.correct(text)] and through the
    length of [tool.check(text)], Gramformer through the candidates of
    [gf.correct(s)].  The stages call them inside [try] blocks that swallow
    every exception: a call returns [None] when it raises. *)
Definition ToolCorrect : Type := string -> option string.
Definition ToolCheck : Type := string -> option nat.
Definition Gramformer : Type := option (string -> option (list string)).

(** Values stored in an edit: a string, or the two offsets of a span. *)
Inductive value : Type :=
| VStr (s : string)
| VSpan (a b : nat).

(** An edit record.  The three entries the pipeline reads or defaults are
    fields of their own; the other entries keep the order of the literal. *)
Record Edit : Type := {
  e_phase : option Z;
  e_phase_name : option string;
  e_confidence : option float;
  e_fields : list (string * value)
}.

(** The mapping returned by a stage; [None] is an absent key. *)
Record StageResult : Type := {
  corrected_text : option string;
  issues_found : option (list Edit);
  confidence : option float;
  dominant_tense : option string
}.

Definition set_nth {A} (l : list A) (i : nat) (x : A) : list A :=
  firstn i l ++ match skipn i l with [] => [] | _ :: tl => x :: tl end.

(** ** utils.py *)

Module Utils.
Import PyStr Re.

(** [re.sub(r"\s+", " ", text.strip())]. *)
Definition preprocess_text (text : string) : string :=
  sub false (Plus ws) (fun _ => " ") (strip text).

(** [get_sentences]: sentence texts of the module's own spaCy model,
    stripped, the empty ones dropped. *)
Definition get_sentences (spacy_model : Annotator) (text : string) : list string :=
  filter (fun s => negb (String.eqb s ""))
         (map strip (sents (spacy_model text))).

End Utils.

(** An edit literal: its ["phase"] and ["confidence"] entries, when it has
    them, and its other entries. *)
Definition edit (phase : option Z) (conf : option float)
  (fields : list (string * value)) : Edit :=
  {| e_phase := phase; e_phase_name := None; e_confidence := conf;
     e_fields := fields |}.

(** Tokens of a document at the given positions. *)
Definition tokens_at (doc : Doc) (positions : list nat) : list Token.t :=
  flat_map (fun j => match nth_error (doc_tokens doc) j with
                     | Some t => [t]
                     | None => []
                     end) positions.

(** [re.sub(r"\s+([.,!?;:])", r"\1", s)], shared by the stages. *)
Definition space_before_punct : Re.regex :=
  Re.Cat (Re.Plus Re.ws) (Re.Grp 1 (Re.OneOf ".,!?;:")).

Definition detach_space (s : string) : string :=
  Re.sub false space_before_punct (fun g => Re.group 1 g) s.

(** [re.sub(r"\s{2,}", " ", s)]. *)
Definition collapse_spaces (s : string) : string :=
  Re.sub false (Re.AtLeast2 Re.ws) (fun _ => " ") s.

(** ** Phase 6: subject-verb agreement (phase6_subject_verb.py) *)

Module SubjectVerb.
Import PyStr Re.

Definition SINGULAR_SUBJ : list string :=
  ["he"; "she"; "it"; "each"; "everyone"; "someone"; "nobody";
   "anyone"; "everybody"; "one"; "somebody"; "anybody"; "no one"].
Definition PLURAL_SUBJ : list string :=
  ["they"; "we"; "you"; "police"; "people"; "children"; "data";
   "media"; "cattle"; "staff"; "fish"; "deer"].
Definition COLLECTIVE_SINGULAR : list string :=
  ["team"; "family"; "committee"; "group"; "class"; "government";
   "staff"; "audience"; "jury"; "crowd"; "band"; "public"; "company"].
Definition ACADEMIC_SINGULAR : list string :=
  ["mathematics"; "physics"; "statistics"; "economics";
   "politics"; "news"; "ethics"; "athletics"].
Definition QUANTIFIER_SINGULAR : list string :=
  ["neither of"; "either of"; "each of"; "one of"; "every one of"].
Definition QUANTIFIER_PLURAL : list string :=
  ["a number of"; "a lot of"; "some of"; "many of";
   "several of"; "a few of"; "plenty of"].

(** The two values of [num]. *)
Inductive number : Type := singular | plural.

(** [IRREGULAR]: lemma, then its singular and its plural form. *)
Definition IRREGULAR : list (string * (string * string)) :=
  [("be", ("is", "are")); ("have", ("has", "have")); ("do", ("does", "do"));
   ("go", ("goes", "go")); ("fly", ("flies", "fly")); ("try", ("tries", "try"))].

Definition _conjugate (lemma : string) (num : number) : outcome string :=
  let lemma := lower lemma in
  match assoc lemma IRREGULAR with
  | Some (sg, pl) => Ok (match num with singular => sg | plural => pl end)
  | None =>
      match num with
      | plural => Ok lemma
      | singular =>
          (y_rule <-
             (if endswith lemma "y" then
                match len lemma with
                | S (S n) =>
                    match index lemma n with
                    | Some c => Ok (negb (contains "aeiou" (String c "")))
                    | None => Raise "IndexError"
                    end
                | _ => Raise "IndexError"
                end
              else Ok false) ;;
           if y_rule then Ok (take (len lemma - 1) lemma ++ "ies")
           else if existsb (endswith lemma) ["s"; "sh"; "ch"; "x"; "z"; "o"]
                then Ok (lemma ++ "es")
                else Ok (lemma ++ "s"))%outcome
      end
  end.

(** Lines 115-128: the number of the subject. *)
Definition subject_number (doc : Doc) (subj : Token.t) : number :=
  let subj_lower := lower (Token.text subj) in
  let subtree_lower :=
    join " " (map (fun t => lower (Token.text t))
                  (tokens_at doc (Token.subtree subj))) in
  if existsb (contains subtree_lower) QUANTIFIER_SINGULAR then singular
  else if existsb (contains subtree_lower) QUANTIFIER_PLURAL then plural
  else if mem subj_lower PLURAL_SUBJ then plural
  else if (mem subj_lower SINGULAR_SUBJ || mem subj_lower COLLECTIVE_SINGULAR
           || mem subj_lower ACADEMIC_SINGULAR)%bool then singular
  else if mem (Token.tag_ subj) ["NNS"; "NNPS"] then plural
  else singular.

(** Lines 140-144: the target form in the capitalization of the verb;
    [token.text[0]] raises on an empty text. *)
Definition preserve_case (token_text target_form : string) : outcome string :=
  match token_text with
  | EmptyString => Raise "IndexError"
  | String c0 _ =>
      if char_isupper c0 then Ok (capitalize target_form)
      else if isupper token_text then Ok (upper target_form)
      else Ok target_form
  end.

(** The edit of one replacement (lines 151-158). *)
Definition rule_edit (old target_form subject : string) : Edit :=
  edit (Some 6%Z) (Some 0.97%float)
       [("orig", VStr old); ("repl", VStr target_form);
        ("source", VStr "spaCy-rule"); ("subject", VStr subject)].

(** Lines 97-147, the body of the loop for one token: [None] when the
    token is passed over, else the target form and the subject. *)
Definition target_of (doc : Doc) (token : Token.t)
  : outcome (option (string * Token.t)) :=
  if (negb (String.eqb (Token.pos_ token) "VERB")
      || negb (mem (Token.dep_ token)
                   ["ROOT"; "aux"; "auxpass"; "csubj"; "csubjpass"]))%bool
  then Ok None
  else
    let subjects :=
      filter (fun c => mem (Token.dep_ c)
                           ["nsubj"; "nsubjpass"; "csubj"; "csubjpass"])
             (tokens_at doc (Token.children token)) in
    match subjects with
    | [] => Ok None
    | subj :: _ =>
        let num := subject_number doc subj in
        let lemma := lower (Token.lemma_ token) in
        (target_form <- _conjugate lemma num ;;
         if String.eqb target_form "" then Ok None
         else
           target_form <- preserve_case (Token.text token) target_form ;;
           if negb (String.eqb (lower target_form) (lower (Token.text token)))
           then Ok (Some (target_form, subj))
           else Ok None)%outcome
    end.

Section Stage.
Variable nlp : Annotator.
Variable tool : ToolCorrect.

(** The [while i < len(doc)] loop, one unit of fuel per iteration; after a
    replacement the text is parsed again and the scan restarts. *)
Fixpoint rule_engine (fuel : nat) (doc : Doc) (tokens : list string) (i : nat)
  (issues : list Edit) {struct fuel} : outcome (list string * list Edit) :=
  match fuel with
  | O => OutOfFuel
  | S fuel' =>
      match nth_error (doc_tokens doc) i with
      | None => Ok (tokens, issues)
      | Some token =>
          match target_of doc token with
          | Raise e => Raise e
          | OutOfFuel => OutOfFuel
          | Ok None => rule_engine fuel' doc tokens (S i) issues
          | Ok (Some (target_form, subj)) =>
              let old := Token.text token in
              let tokens :=
                set_nth tokens i (target_form ++ Token.whitespace_ token) in
              let issues :=
                (issues ++ [rule_edit old target_form (Token.text subj)])%list in
              let text := join "" tokens in
              let doc := nlp text in
              rule_engine fuel' doc
                (map Token.text_with_ws (doc_tokens doc)) 0 issues
          end
      end
  end.

Definition lt_edit (text lt_fixed : string) : Edit :=
  edit (Some 6%Z) (Some 0.98%float)
       [("type", VStr "LT_SVA"); ("orig", VStr text); ("repl", VStr lt_fixed)].

Definition correct (fuel : nat) (text : string) : outcome StageResult :=
  let text := strip (Utils.preprocess_text text) in
  if String.eqb text "" then
    Ok {| corrected_text := Some text; issues_found := Some [];
          confidence := Some 1%float; dominant_tense := None |}
  else
    let '(text, issues) :=
      match tool text with
      | Some lt_fixed =>
          if negb (String.eqb lt_fixed text)
          then (lt_fixed, [lt_edit text lt_fixed]) else (text, [])
      | None => (text, [])
      end in
    let doc := nlp text in
    (r <- rule_engine fuel doc (map Token.text_with_ws (doc_tokens doc)) 0 issues ;;
     let '(tokens, issues) := r in
     let result := strip (detach_space (join "" tokens)) in
     Ok {| corrected_text := Some result; issues_found := Some issues;
           confidence := Some (match issues with
                               | [] => 1%float
                               | _ => 0.98%float
                               end);
           dominant_tense := None |})%outcome.

End Stage.
End SubjectVerb.

(** ** Phase 7: tense consistency (phase7_tense.py) *)

Module Tense.
Import PyStr Re.

(** [self.irregular], base form then past form, in the order of the literal. *)
Definition irregular : list (string * string) :=
  [("go", "went"); ("buy", "bought"); ("come", "came"); ("do", "did");
   ("eat", "ate"); ("give", "gave"); ("have", "had"); ("know", "knew");
   ("make", "made"); ("see", "saw"); ("take", "took"); ("think", "thought");
   ("write", "wrote"); ("run", "ran"); ("find", "found"); ("leave", "left");
   ("say", "said"); ("get", "got"); ("begin", "began"); ("drink", "drank");
   ("drive", "drove"); ("fly", "flew"); ("grow", "grew"); ("sing", "sang");
   ("swim", "swam"); ("wear", "wore"); ("sell", "sold"); ("tell", "told");
   ("choose", "chose"); ("fall", "fell"); ("forget", "forgot");
   ("freeze", "froze"); ("keep", "kept"); ("meet", "met"); ("ride", "rode");
   ("speak", "spoke"); ("teach", "taught"); ("understand", "understood");
   ("win", "won"); ("break", "broke")].

Definition past_clues : list string := ["yesterday"; "ago"; "last"; "earlier"; "before"].
Definition future_clues : list string := ["tomorrow"; "next"; "soon"; "will"; "going to"].
Definition present_clues : list string := ["now"; "today"; "always"; "every"].

(** [for b, p in self.irregular.items(): if verb.lower() == b: return p]. *)
Fixpoint lookup_past (items : list (string * string)) (verb : string) : option string :=
  match items with
  | [] => None
  | (b, p) :: items' => if String.eqb (lower verb) b then Some p else lookup_past items' verb
  end.

Definition _past_participle (verb : string) : string :=
  match lookup_past irregular verb with
  | Some p => p
  | None => if negb (endswith verb "ed") then verb ++ "ed" else verb
  end.

(** [for b, p in self.irregular.items(): if verb.lower() == p: return b]. *)
Fixpoint lookup_base (items : list (string * string)) (verb : string) : option string :=
  match items with
  | [] => None
  | (b, p) :: items' => if String.eqb (lower verb) p then Some b else lookup_base items' verb
  end.

Definition _get_base (verb : string) : string :=
  match lookup_base irregular verb with
  | Some b => b
  | None => verb
  end.

(** [\b(went|came|bought|saw)\b]. *)
Definition four_pasts : regex :=
  Grp 1 (Alts [Lit "went"; Lit "came"; Lit "bought"; Lit "saw"]).
Definition future_re : regex := Cat WordB (Cat four_pasts WordB).

(** [\bdidn't\s+(\w+ed)\b]. *)
Definition didnt_re : regex :=
  Cat WordB (Cat (Lit "didn't") (Cat (Plus ws)
    (Cat (Grp 1 (Cat (Plus word) (Lit "ed"))) WordB))).

(** [\b(do|does|don’t|doesn’t)\s+(went|came|bought|saw)\b]. *)
Definition do_re : regex :=
  Cat WordB (Cat (Grp 1 (Alts [Lit "do"; Lit "does"; Lit "don’t"; Lit "doesn’t"]))
    (Cat (Plus ws)
      (Cat (Grp 2 (Alts [Lit "went"; Lit "came"; Lit "bought"; Lit "saw"])) WordB))).

(** [\b(was|were)\s+(\w+)\b]. *)
Definition was_re : regex :=
  Cat WordB (Cat (Grp 1 (Alts [Lit "was"; Lit "were"]))
    (Cat (Plus ws) (Cat (Grp 2 (Plus word)) WordB))).

Definition _fix_aux_negation (s : string) : string :=
  let s := sub true didnt_re
             (fun g => "didn't " ++ take (len (group 1 g) - 2) (group 1 g)) s in
  let s := sub true do_re
             (fun g => group 1 g ++ " " ++ _get_base (group 2 g)) s in
  sub true was_re (fun g => group 1 g ++ " " ++ group 2 g ++ "ing") s.

(** [\bhave\s+(\w+)\b], and the same with [has] and [had]. *)
Definition perfect_re (aux : string) : regex :=
  Cat WordB (Cat (Lit aux) (Cat (Plus ws) (Cat (Grp 1 (Plus word)) WordB))).

Definition _fix_continuous_perfect (s : string) : string :=
  let fix_ aux s :=
    sub true (perfect_re aux) (fun g => aux ++ " " ++ _past_participle (group 1 g)) s in
  fix_ "had" (fix_ "has" (fix_ "have" s)).

(** [\b{w}\b] for a text [w] spliced into the pattern.  This is Python's
    reading of the pattern for every [w] with [is_literal w]: the forms of
    the table and the words of a sentence.  A [w] with a metacharacter would
    give another pattern, or make [re] raise; the statements below that
    range over every annotator assume [is_literal] of the token texts that
    are spliced. *)
Definition whole_word (w : string) : regex := Cat WordB (Cat (Lit w) WordB).

Definition _clean_spacing (text : string) : string :=
  strip (collapse_spaces (detach_space text)).

Definition _empty_result (text : string) : StageResult :=
  {| corrected_text := Some text; issues_found := Some [];
     confidence := Some 1%float; dominant_tense := Some "present" |}.

Section Stage.
Variable nlp : Annotator.
Variable tool_check : ToolCheck.
Variable tool_correct : ToolCorrect.
Variable gf : Gramformer.
Variable spacy_model : Annotator.   (* [utils.get_spacy_model()] *)

Definition _detect_dominant_tense (text : string) : string :=
  let doc := nlp (lower text) in
  let vote (clues : nat * nat * nat) (tok : Token.t) : nat * nat * nat :=
    let '(past, present, future) := clues in
    if (mem (Token.text tok) past_clues || mem (Token.tag_ tok) ["VBD"; "VBN"])%bool
    then (past + 3, present, future)
    else if (mem (Token.text tok) future_clues
             || String.eqb (lower (Token.text tok)) "will")%bool
    then (past, present, future + 3)
    else if mem (Token.tag_ tok) ["VBZ"; "VBP"]
    then (past, present + 2, future)
    else clues in
  let '(past, present, future) := fold_left vote (doc_tokens doc) (0, 0, 0) in
  let past := if contains text "yesterday" then past + 5 else past in
  let future := if contains text "tomorrow" then future + 5 else future in
  let present :=
    if (contains text "now" || contains text "today")%bool
    then present + 3 else present in
  (* max(clues, key=clues.get): the first key of the largest count *)
  let '(best, count) :=
    if Nat.ltb past present then ("present", present) else ("past", past) in
  if Nat.ltb count future then "future" else best.

Definition _apply_rules (s tense : string) : string * list Edit :=
  let doc := nlp s in
  let s := _fix_aux_negation s in
  let s := _fix_continuous_perfect s in
  if String.eqb tense "future" then
    (sub false future_re (fun g => _get_base (group 1 g)) s,
     [edit (Some 7%Z) None [("type", VStr "future_normalize")]])
  else if String.eqb tense "past" then
    fold_left
      (fun (acc : string * list Edit) (token : Token.t) =>
         let '(s, issues) := acc in
         match assoc (lower (Token.lemma_ token)) irregular with
         | Some past =>
             if (mem (Token.tag_ token) ["VB"; "VBP"; "VBZ"]
                 && negb (String.eqb (lower (Token.text token)) past))%bool
             then (sub true (whole_word (Token.text token)) (fun _ => past) s,
                   (issues ++ [edit (Some 7%Z) None
                                 [("type", VStr "past_irregular");
                                  ("from", VStr (Token.text token));
                                  ("to", VStr past)]])%list)
             else acc
         | None => acc
         end)
      (doc_tokens doc) (s, [])
  else if String.eqb tense "present" then
    fold_left
      (fun (acc : string * list Edit) (item : string * string) =>
         let '(s, issues) := acc in
         let '(base, past) := item in
         if search true (whole_word past) s
         then (sub true (whole_word past) (fun _ => base) s,
               (issues ++ [edit (Some 7%Z) None
                             [("type", VStr "present_normalize");
                              ("from", VStr past); ("to", VStr base)]])%list)
         else acc)
      irregular (s, [])
  else (s, []).

Definition _apply_lt (sent : string) : string * list Edit :=
  match tool_check sent with
  | Some (S _) =>
      match tool_correct sent with
      | Some corrected =>
          if negb (String.eqb corrected sent)
          then (corrected,
                [edit (Some 7%Z) None
                   [("type", VStr "LT"); ("message", VStr "Refined by LanguageTool")]])
          else (sent, [])
      | None => (sent, [])
      end
  | _ => (sent, [])
  end.

Definition _fix_sentence (sent tense : string) : string * list Edit :=
  let '(s, issues) := _apply_rules sent tense in
  let '(s, issues) :=
    match gf with
    | Some gf_correct =>
        match gf_correct s with
        | Some (corrected :: _) =>
            if negb (String.eqb corrected s)
            then (corrected,
                  (issues ++ [edit (Some 7%Z) None
                                [("type", VStr "GF");
                                 ("message", VStr "Deep tense recheck by Gramformer")]])%list)
            else (s, issues)
        | _ => (s, issues)
        end
    | None => (s, issues)
    end in
  let '(s, lt_issues) := _apply_lt s in
  (s, (issues ++ lt_issues)%list).

Definition verb_count (text : string) : nat :=
  List.length (filter (fun t => String.eqb (Token.pos_ t) "VERB") (doc_tokens (nlp text))).

Definition _compute_confidence (text : string) (issues : list Edit) : float :=
  if Nat.eqb (verb_count text) 0 then 1%float
  else
    let conf :=
      (0.8 + (PyFloat.of_nat (List.length issues)
              / PyFloat.of_nat (Nat.max (verb_count text) 1)) * 0.2)%float in
    PyFloat.round (PyFloat.min conf 1%float) 2.

Definition correct (text : string) : StageResult :=
  let text := Utils.preprocess_text text in
  if String.eqb (strip text) "" then _empty_result text
  else
    let dominant := _detect_dominant_tense text in
    let sentences := Utils.get_sentences spacy_model text in
    let '(corrected_sents, all_issues) :=
      fold_left
        (fun (acc : list string * list Edit) (sent : string) =>
           let '(fixed, issues) := _fix_sentence sent dominant in
           ((fst acc ++ [fixed])%list, (snd acc ++ issues)%list))
        sentences ([], []) in
    let result := _clean_spacing (join " " corrected_sents) in
    let conf := _compute_confidence text all_issues in
    {| corrected_text := Some result; issues_found := Some all_issues;
       confidence := Some conf; dominant_tense := Some dominant |}.

End Stage.
End Tense.

(** ** Phase 8: pronoun-antecedent agreement (phase8_pronoun.py) *)

Module Pronoun.
Import PyStr Re.

(** [PRONOUN_FORMS]: base, then its nominative, objective and possessive. *)
Definition PRONOUN_FORMS : list (string * (string * string * string)) :=
  [("he", ("he", "him", "his")); ("she", ("she", "her", "her"));
   ("it", ("it", "it", "its")); ("they", ("they", "them", "their"))].

Definition SINGULAR_MALE : list string :=
  ["boy"; "man"; "father"; "king"; "john"; "ravi"; "brother"; "uncle"].
Definition SINGULAR_FEMALE : list string :=
  ["girl"; "woman"; "mother"; "mary"; "sister"; "aunt"; "queen"].
Definition SINGULAR_NEUTER : list string :=
  ["dog"; "book"; "car"; "shop"; "market"; "city"; "team"; "committee";
   "child"; "student"].
Definition PLURAL : list string :=
  ["people"; "students"; "friends"; "children"; "police"; "data"; "teachers"].

(** The pronouns the stage looks at (line 57). *)
Definition PRONOUNS : list string :=
  ["he"; "she"; "it"; "they"; "him"; "her"; "his"; "its"; "them"; "their"].

(** [range(start, stop, -1)]. *)
Definition range_down (start stop : Z) : list Z :=
  map (fun k => (start - Z.of_nat k)%Z) (seq 0 (Z.to_nat (start - stop))).

(** A token the search may return (lines 100-104). *)
Definition candidate (t : Token.t) : bool :=
  (mem (Token.pos_ t) ["NOUN"; "PROPN"] && negb (mem (Token.dep_ t) ["pobj"; "poss"]))%bool.

(** The body of the [for] loop of [_find_antecedent]: the first position
    of the range that holds a candidate.  (The two extension attributes the
    loop sets on the token are read nowhere.) *)
Fixpoint first_candidate (doc : Doc) (positions : list Z) : option (Z * Token.t) :=
  match positions with
  | [] => None
  | j :: positions' =>
      match nth_error (doc_tokens doc) (Z.to_nat j) with
      | Some t => if candidate t then Some (j, t) else first_candidate doc positions'
      | None => first_candidate doc positions'
      end
  end.

(** [_find_antecedent(pronoun_token, doc)], the pronoun given by its
    position [pronoun_token.i]. *)
Definition _find_antecedent (i : nat) (doc : Doc) : option (Z * Token.t) :=
  first_candidate doc
    (range_down (Z.of_nat i - 1) (Z.max (-1) (Z.of_nat i - 20))).

Inductive form : Type := nom | obj | poss.

Definition _expected_pronoun (ant_token : Token.t) (i : nat) (pron_token : Token.t)
  (doc : Doc) : option string :=
  let ant := lower (Token.text ant_token) in
  let pron := lower (Token.text pron_token) in
  let base :=
    if mem ant SINGULAR_MALE then "he"
    else if mem ant SINGULAR_FEMALE then "she"
    else if mem ant SINGULAR_NEUTER then "it"
    else if (mem ant PLURAL || mem (Token.tag_ ant_token) ["NNS"; "NNPS"])%bool then "they"
    else if mem (Token.tag_ ant_token) ["NNS"; "NNPS"] then "they" else "it" in
  let prev_token :=
    match i with O => None | S i' => nth_error (doc_tokens doc) i' end in
  let next_token := nth_error (doc_tokens doc) (i + 1) in
  let is_a (p : string) (t : option Token.t) : bool :=
    match t with
    | Some t => (Token.truthy t && String.eqb (Token.pos_ t) p)%bool
    | None => false
    end in
  let form :=
    if (mem pron ["his"; "her"; "its"; "their"] || is_a "NOUN" next_token)%bool then poss
    else if (mem pron ["him"; "her"; "it"; "them"] || is_a "VERB" prev_token)%bool then obj
    else nom in
  match assoc base PRONOUN_FORMS with
  | Some (n, o, p) => Some (match form with nom => n | obj => o | poss => p end)
  | None => None
  end.

(** [token.idx]: the offset of the token in the text of the document. *)
Definition idx (doc : Doc) (i : nat) : nat :=
  len (join "" (map Token.text_with_ws (firstn i (doc_tokens doc)))).

(** [re.sub(r"\s+([.,!?])", r"\1", s)]. *)
Definition detach4 (s : string) : string :=
  sub false (Cat (Plus ws) (Grp 1 (OneOf ".,!?"))) (fun g => group 1 g) s.

Section Stage.
Variable nlp : Annotator.

(** One turn of [for token in doc], at position [i]; [None] is [continue]. *)
Definition fix_token (doc : Doc) (i : nat) (token : Token.t) : option (string * Edit) :=
  if negb (String.eqb (Token.pos_ token) "PRON") then None
  else
    let pron := lower (Token.text token) in
    if negb (mem pron PRONOUNS) then None
    else
      match _find_antecedent i doc with
      | None => None
      | Some (_, antecedent) =>
          if negb (Token.truthy antecedent) then None
          else
            match _expected_pronoun antecedent i token doc with
            | None => None
            | Some expected =>
                if (String.eqb expected "" || String.eqb (lower expected) pron)%bool
                then None
                else
                  let fixed :=
                    match Token.text token with
                    | String c0 _ => if char_isupper c0 then capitalize expected else expected
                    | EmptyString => expected
                    end in
                  Some (fixed ++ Token.whitespace_ token,
                        edit (Some 8%Z) (Some 0.99%float)
                          [("span", VSpan (idx doc i) (idx doc i + len (Token.text token)));
                           ("orig", VStr (Token.text token));
                           ("repl", VStr fixed);
                           ("antecedent", VStr (Token.text antecedent))])
            end
      end.

Definition correct (text : string) : StageResult :=
  if String.eqb (strip text) "" then
    {| corrected_text := Some text; issues_found := Some [];
       confidence := None; dominant_tense := None |}
  else
    let doc := nlp text in
    let tokens0 := map Token.text_with_ws (doc_tokens doc) in
    let '(tokens, issues) :=
      fold_left
        (fun (acc : list string * list Edit) (it : nat * Token.t) =>
           match fix_token doc (fst it) (snd it) with
           | Some (fixed_ws, e) =>
               (set_nth (fst acc) (fst it) fixed_ws, (snd acc ++ [e])%list)
           | None => acc
           end)
        (combine (seq 0 (List.length (doc_tokens doc))) (doc_tokens doc))
        (tokens0, []) in
    let result := strip (collapse_spaces (detach4 (join "" tokens))) in
    {| corrected_text := Some result; issues_found := Some issues;
       confidence := Some (match issues with [] => 1%float | _ => 0.99%float end);
       dominant_tense := None |}.

End Stage.
End Pronoun.

(** ** Phase 9: conjunctions and sentence flow (phase9_conjunctions.py) *)

Module Conjunctions.
Import PyStr Re.

(** The four connector categories of the constructor (read nowhere). *)
Definition CONTRAST : list string := ["but"; "however"; "yet"; "though"; "nevertheless"].
Definition RESULT : list string := ["so"; "therefore"; "thus"; "hence"; "consequently"].
Definition ADDITION : list string := ["and"; "also"; "moreover"; "furthermore"].
Definition SEQUENCE : list string := ["then"; "next"; "afterwards"; "later"; "finally"].

(** [any(w in s for w in words)]. *)
Definition any_in (s : string) (words : list string) : bool :=
  existsb (contains s) words.

Definition _is_contrast (p c : string) : bool :=
  let neg_words := ["not"; "no"; "never"; "none"; "hardly"; "rarely"] in
  let positive_words := ["good"; "happy"; "success"; "excellent"; "love"; "like"; "win"] in
  let negative_words := ["bad"; "sad"; "fail"; "hate"; "lose"; "poor"] in
  if (any_in p positive_words && any_in c negative_words)%bool then true
  else if (any_in p negative_words && any_in c positive_words)%bool then true
  else if ((any_in p neg_words && negb (any_in c neg_words))
           || (negb (any_in p neg_words) && any_in c neg_words))%bool then true
  else false.

(** [re.search(r"[.!?]$", s.strip())]. *)
Definition ends_sentence (s : string) : bool :=
  search false (Cat (OneOf ".!?") Eol) (strip s).

(** The connector and the reason; [("", "")] is no connector. *)
Definition _choose_connector (prev curr : string) : string * string :=
  let p := lower prev in
  let c := lower curr in
  if any_in c ["because"; "since"; "therefore"; "hence"] then ("", "")
  else if _is_contrast p c then ("but", "contrast")
  else if any_in p ["because"; "since"; "due to"; "as a result"] then ("so", "cause-result")
  else if (any_in p ["reason"; "cause"] || any_in c ["result"; "therefore"])%bool
       then ("therefore", "cause-result")
  else if any_in p ["first"; "after"; "before"; "later"; "next"] then ("then", "sequence")
  else if any_in c ["then"; "afterward"; "later"; "finally"] then ("", "")
  else if ends_sentence prev then ("and", "addition")
  else ("", "").

Definition _fix_spacing (text : string) : string :=
  let text := detach_space text in
  let text := sub false (Cat (Star ws) (Cat (Grp 1 (OneOf "!?.,;:")) (Star ws)))
                  (fun g => group 1 g ++ " ") text in
  let text := collapse_spaces text in
  let text := sub false (Cat (Star ws) (Cat (Chr ",") (Star ws))) (fun _ => ", ") text in
  let text := sub false (Cat (Star ws) (Cat (Chr ".") (Star ws))) (fun _ => ". ") text in
  strip text.

(** What one turn of the loop appends to [enhanced], and whether it
    appends an edit (lines 55-71). *)
Definition connect (prev curr : string) (enhanced : list string)
  : list string * list Edit :=
  let '(connector, reason) := _choose_connector prev curr in
  if negb (String.eqb connector "") then
    let conn := if ends_sentence prev then capitalize connector else connector in
    let new_sent :=
      if negb (startswith (lower curr) conn)
      then " " ++ conn ++ ", " ++ curr
      else " " ++ curr in
    let enhanced' := (enhanced ++ [new_sent])%list in
    (enhanced',
     [edit None (Some 0.99%float)
        [("span", VSpan (len (join "" enhanced)) (len (join "" enhanced')));
         ("orig", VStr ""); ("repl", VStr conn); ("type", VStr "connector");
         ("reason", VStr reason)]])
  else ((enhanced ++ [(" " ++ curr)%string])%list, []).

(** [for i in range(1, len(sentences))], [prev] being [sentences[i - 1]]. *)
Fixpoint connect_all (prev : string) (sentences : list string)
  (enhanced : list string) (issues : list Edit) : list string * list Edit :=
  match sentences with
  | [] => (enhanced, issues)
  | curr :: sentences' =>
      let '(enhanced, new_issues) := connect prev curr enhanced in
      connect_all curr sentences' enhanced (issues ++ new_issues)%list
  end.

Section Stage.
Variable nlp : Annotator.

Definition correct (text : string) : StageResult :=
  if String.eqb (strip text) "" then
    {| corrected_text := Some text; issues_found := Some [];
       confidence := None; dominant_tense := None |}
  else
    let doc := nlp text in
    match map strip (sents doc) with
    | first :: (_ :: _) as others =>
        let '(enhanced, issues) := connect_all first others [first] [] in
        let result := _fix_spacing (join "" enhanced) in
        {| corrected_text := Some result; issues_found := Some issues;
           confidence := Some (match issues with [] => 1%float | _ => 0.99%float end);
           dominant_tense := None |}
    | _ =>
        {| corrected_text := Some text; issues_found := Some [];
           confidence := Some 1%float; dominant_tense := None |}
    end.

End Stage.
End Conjunctions.

(** ** Phase 10: article usage (phase10_articles.py) *)

Module Articles.
Import PyStr Re.

Definition ZERO_ARTICLE : list string :=
  ["home"; "school"; "college"; "work"; "bed"; "church";
   "prison"; "hospital"; "market"; "town"; "breakfast";
   "lunch"; "dinner"; "class"; "court"; "parliament"].
Definition THE_NOUNS : list string :=
  ["sun"; "moon"; "earth"; "world"; "internet"; "government";
   "sky"; "sea"; "ocean"; "president"; "prime minister"].
Definition A_BEFORE_U : list string :=
  ["university"; "user"; "unit"; "ukulele"; "unique"; "uniform"; "european"; "useful"].
Definition AN_BEFORE_H : list string := ["hour"; "honest"; "honour"; "heir"; "honor"].
Definition UNCOUNTABLES : list string :=
  ["information"; "advice"; "water"; "money"; "music"; "equipment"; "knowledge"].

(** [^[A-Z]{2,}$]. *)
Definition acronym_re : regex := Cat Bol (Cat (AtLeast2 (Cls char_isupper)) Eol).
(** [^[aeiou]]. *)
Definition vowel_re : regex := Cat Bol (OneOf "aeiou").
(** [^h(our|onest|onour|onor|eir)]. *)
Definition silent_h_re : regex :=
  Cat Bol (Cat (Chr "h") (Alts [Lit "our"; Lit "onest"; Lit "onour"; Lit "onor"; Lit "eir"])).

Definition _choose_article (word : string) : string :=
  let w := lower (strip word) in
  if String.eqb w "" then "a"
  else if mem w AN_BEFORE_H then "an"
  else if mem w A_BEFORE_U then "a"
  else if match_ false acronym_re word then
    match word with
    | String c0 _ => if contains "AEFHILMNORSX" (String c0 "") then "an" else "a"
    | EmptyString => "a"
    end
  else if match_ false vowel_re w then "an"
  else if match_ false silent_h_re w then "an"
  else "a".

(** [\b(in|to|from|towards)\s+(east|west|north|south)\b]. *)
Definition direction_re : regex :=
  Cat WordB (Cat (Grp 1 (Alts [Lit "in"; Lit "to"; Lit "from"; Lit "towards"]))
    (Cat (Plus ws)
      (Cat (Grp 2 (Alts [Lit "east"; Lit "west"; Lit "north"; Lit "south"])) WordB))).

(** [\b([Aa])n? +([Hh])[aeiou]]. *)
Definition a_h_vowel_re : regex :=
  Cat WordB (Cat (Grp 1 (OneOf "Aa")) (Cat (Opt (Chr "n"))
    (Cat (Plus (Chr " ")) (Cat (Grp 2 (OneOf "Hh")) (OneOf "aeiou"))))).

(** Step 3, the clean-up of the joined tokens. *)
Definition post_process (result : string) : string :=
  let result := detach_space result in
  let result := collapse_spaces result in
  let result := sub true direction_re
                  (fun g => group 1 g ++ " the " ++ group 2 g) result in
  let result := sub false a_h_vowel_re
                  (fun g => group 1 g ++ "n " ++ group 2 g) result in
  strip result.

(** The [while] loop of lines 78-82: the first token after position [i]
    that is neither space nor punctuation. *)
Definition next_content (doc : Doc) (i : nat) : option Token.t :=
  find (fun t => negb (Token.is_space t || Token.is_punct t))
       (skipn (i + 1) (doc_tokens doc)).

Definition a10 (type_ : string) (conf : float) (fields : list (string * value)) : Edit :=
  edit (Some 10%Z) (Some conf) (("type", VStr type_) :: fields).

(** One turn of [for i, token in enumerate(doc)]: the new text of the
    token and the edit, when the token is rewritten. *)
Definition fix_token (doc : Doc) (i : nat) (token : Token.t) : option (string * Edit) :=
  if (Token.is_punct token || Token.is_space token)%bool then None
  else
    let lword := lower (Token.text token) in
    if mem lword ["a"; "an"] then
      match next_content doc i with
      | None => None
      | Some next_tok =>
          let next_lemma := lower (Token.lemma_ next_tok) in
          let next_text := Token.text next_tok in
          if negb (mem (Token.pos_ next_tok) ["NOUN"; "ADJ"]) then None
          else if mem next_lemma ZERO_ARTICLE then
            Some ("", a10 "zero_article_removed" 0.97
                        [("orig", VStr (Token.text token)); ("noun", VStr next_lemma)])
          else if mem next_lemma UNCOUNTABLES then
            Some ("", a10 "uncountable_article_removed" 0.96
                        [("orig", VStr (Token.text token)); ("noun", VStr next_lemma)])
          else
            let correct_article := _choose_article next_text in
            if negb (String.eqb correct_article lword) then
              Some (correct_article ++ Token.whitespace_ token,
                    a10 "a_an_fixed" 0.98
                      [("orig", VStr (Token.text token)); ("repl", VStr correct_article);
                       ("noun", VStr next_lemma)])
            else None
      end
    else if mem lword THE_NOUNS then
      let determined :=
        match i with
        | O => false
        | S i' =>
            match nth_error (doc_tokens doc) i' with
            | Some before =>
                mem (lower (Token.text before))
                    ["a"; "an"; "the"; "my"; "our"; "his"; "her"; "their"]
            | None => false
            end
        end in
      if negb determined then
        Some ("the " ++ Token.text token ++ Token.whitespace_ token,
              a10 "insert_the_unique" 0.97 [("repl", VStr "the"); ("noun", VStr lword)])
      else None
    else if String.eqb lword "rain" then
      match i with
      | O => None
      | S i' =>
          match nth_error (doc_tokens doc) i' with
          | Some before =>
              if mem (lower (Token.text before)) ["if"; "when"; "unless"] then
                Some ("the " ++ Token.text token ++ Token.whitespace_ token,
                      a10 "insert_the_rain" 0.96 [("repl", VStr "the")])
              else None
          | None => None
          end
      end
    else None.

Section Stage.
Variable nlp : Annotator.
Variable tool : ToolCorrect.

Definition correct (text : string) : StageResult :=
  let text := Utils.preprocess_text text in
  if String.eqb (strip text) "" then
    {| corrected_text := Some text; issues_found := Some [];
       confidence := Some 1%float; dominant_tense := None |}
  else
    let '(text, issues) :=
      match tool text with
      | Some lt_corrected =>
          if negb (String.eqb lt_corrected text)
          then (lt_corrected,
                [a10 "LT" 0.98 [("orig", VStr text); ("repl", VStr lt_corrected)]])
          else (text, [])
      | None => (text, [])
      end in
    let doc := nlp text in
    let tokens0 := map Token.text_with_ws (doc_tokens doc) in
    let '(tokens, issues) :=
      fold_left
        (fun (acc : list string * list Edit) (it : nat * Token.t) =>
           match fix_token doc (fst it) (snd it) with
           | Some (new_text, e) =>
               (set_nth (fst acc) (fst it) new_text, (snd acc ++ [e])%list)
           | None => acc
           end)
        (combine (seq 0 (List.length (doc_tokens doc))) (doc_tokens doc))
        (tokens0, issues) in
    let result := post_process (join "" tokens) in
    {| corrected_text := Some result; issues_found := Some issues;
       confidence := Some (match issues with [] => 1%float | _ => 0.99%float end);
       dominant_tense := None |}.

End Stage.
End Articles.

(** ** The pipeline (pipeline.py) *)

Module Trace.
(** The mapping returned by [run]; the short-circuit result has four keys. *)
Record t : Type := Make {
  id : option string;
  input_text : option string;
  corrected_text : string;
  total_fixed : nat;
  confidence_avg : float;
  f1_score : option float;
  runtime_sec : option float;
  timestamp : option string;
  edits : list Edit
}.
End Trace.

Module Pipeline.
Import PyStr.

(** A registered phase: the name of its class and its [correct]. *)
Record Phase : Type := {
  class_name : string;
  correct : string -> outcome StageResult
}.

(** What [run] reads from the clock. *)
Record Clock : Type := {
  now_id : string;
  runtime : float;
  now_iso : string
}.

(** The three [edit.setdefault] calls. *)
Definition set_defaults (i : Z) (phase_name : string) (e : Edit) : Edit :=
  {| e_phase := match e_phase e with Some p => Some p | None => Some i end;
     e_phase_name :=
       match e_phase_name e with Some n => Some n | None => Some phase_name end;
     e_confidence :=
       match e_confidence e with Some c => Some c | None => Some 0.95%float end;
     e_fields := e_fields e |}.

(** The [for i, phase in enumerate(self.phases, start=6)] loop. *)
Fixpoint run_phases (phases : list Phase) (i : Z) (current : string)
  (all_edits : list Edit) : outcome (string * list Edit) :=
  match phases with
  | [] => Ok (current, all_edits)
  | phase :: phases' =>
      match correct phase current with
      | Ok result =>
          let current :=
            match corrected_text result with Some t => t | None => current end in
          let issues :=
            match issues_found result with Some l => l | None => [] end in
          run_phases phases' (i + 1) current
            (all_edits ++ map (set_defaults i (class_name phase)) issues)
      | Raise _ => run_phases phases' (i + 1) current all_edits
      | OutOfFuel => OutOfFuel
      end
  end.

(** [e.get("confidence", 0.95)]. *)
Definition confidence_of (e : Edit) : float :=
  match e_confidence e with Some c => c | None => 0.95%float end.

Definition avg_confidence (all_edits : list Edit) : float :=
  match all_edits with
  | [] => 1%float
  | _ => PyFloat.round
           (PyFloat.sum (map confidence_of all_edits)
            / PyFloat.of_nat (List.length all_edits))%float 3
  end.

Definition run (phases : list Phase) (clock : Clock) (text : string)
  : outcome Trace.t :=
  if String.eqb (strip text) "" then
    Ok {| Trace.id := None; Trace.input_text := None; Trace.corrected_text := "";
          Trace.total_fixed := 0; Trace.confidence_avg := 1%float;
          Trace.f1_score := None; Trace.runtime_sec := None;
          Trace.timestamp := None; Trace.edits := [] |}
  else
    (r <- run_phases phases 6 (strip text) [] ;;
     let '(current, all_edits) := r in
     Ok {| Trace.id := Some ("aiwave_" ++ now_id clock);
           Trace.input_text := Some text;
           Trace.corrected_text := strip current;
           Trace.total_fixed := List.length all_edits;
           Trace.confidence_avg := avg_confidence all_edits;
           Trace.f1_score := Some (PyFloat.round (avg_confidence all_edits) 2);
           Trace.runtime_sec := Some (runtime clock);
           Trace.timestamp := Some (now_iso clock);
           Trace.edits := all_edits |})%outcome.

(** The phases registered by [GrammarPipeline.__init__]. *)
Definition phases (fuel : nat) (nlp spacy_model : Annotator)
  (tool_check : ToolCheck) (tool_correct : ToolCorrect) (gf : Gramformer)
  : list Phase :=
  [ {| class_name := "SubjectVerbAgreementCorrector";
       correct := SubjectVerb.correct nlp tool_correct fuel |};
    {| class_name := "TenseConsistencyCorrector";
       correct := fun text =>
         Ok (Tense.correct nlp tool_check tool_correct gf spacy_model text) |};
    {| class_name := "PronounAgreementCorrector";
       correct := fun text => Ok (Pronoun.correct nlp text) |};
    {| class_name := "ConjunctionsCorrector";
       correct := fun text => Ok (Conjunctions.correct nlp text) |};
    {| class_name := "ArticleUsageCorrector";
       correct := fun text => Ok (Articles.correct nlp tool_correct text) |} ].

End Pipeline.

(** ** Annotations of the example sentences

    What the annotator and the checker return on the sentences used in the
    examples below: tokens with the tags and relations of the English
    models, one sentence per full stop, and a checker that finds nothing. *)

Module Fixtures.
Import PyStr.

(** A token that is neither punctuation nor space. *)
Definition tok (text ws pos tag dep lemma : string) (children subtree : list nat)
  : Token.t :=
  Token.Make text ws pos tag dep lemma children subtree false false.

(** A punctuation token at position [i]. *)
Definition punct (text ws : string) (i : nat) : Token.t :=
  Token.Make text ws "PUNCT" text "punct" text [] [i] true false.

(** An annotator given by a table; a text outside the table is one
    sentence without tokens. *)
Definition table_nlp (table : list (string * Doc)) : Annotator :=
  fun text =>
    match assoc text table with
    | Some doc => doc
    | None => {| doc_tokens := []; sents := [text] |}
    end.

(** A checker that reports no match and returns its input. *)
Definition quiet_check : ToolCheck := fun _ => Some 0.
Definition quiet_correct : ToolCorrect := fun text => Some text.

Definition clock0 : Pipeline.Clock :=
  {| Pipeline.now_id := "20250101_000000"; Pipeline.runtime := 0%float;
     Pipeline.now_iso := "2025-01-01T00:00:00" |}.

(** "They will go tomorrow." *)
Definition they_will_go (they : string) : Doc :=
  {| doc_tokens :=
       [ tok they " " "PRON" "PRP" "nsubj" "they" [] [0];
         tok "will" " " "AUX" "MD" "aux" "will" [] [1];
         tok "go" " " "VERB" "VB" "ROOT" "go" [0; 1; 3; 4] [0; 1; 2; 3; 4];
         tok "tomorrow" "" "NOUN" "NN" "npadvmod" "tomorrow" [] [3];
         punct "." "" 4 ];
     sents := [they ++ " will go tomorrow."] |}.

Definition future_nlp : Annotator :=
  table_nlp [ ("They will go tomorrow.", they_will_go "They");
              ("they will go tomorrow.", they_will_go "they") ].

(** "THE DOGS BARKS." and the same sentence with another verb form. *)
Definition the_dogs (verb tag : string) : Doc :=
  {| doc_tokens :=
       [ tok "THE" " " "DET" "DT" "det" "the" [] [0];
         tok "DOGS" " " "NOUN" "NNS" "nsubj" "dog" [0] [0; 1];
         tok verb "" "VERB" tag "ROOT" "bark" [1; 3] [0; 1; 2; 3];
         punct "." "" 3 ];
     sents := ["THE DOGS " ++ verb ++ "."] |}.

Definition caps_nlp : Annotator :=
  table_nlp [ ("THE DOGS BARKS.", the_dogs "BARKS" "VBZ");
              ("THE DOGS Bark.", the_dogs "Bark" "VBP") ].

(** "Mary", [n] adverbs, then "he": the pronoun stands at position [n + 1]. *)
Definition mary_then_he (n : nat) : Doc :=
  {| doc_tokens :=
       (tok "Mary" " " "PROPN" "NNP" "nsubj" "Mary" [] [0]
        :: repeat (tok "very" " " "ADV" "RB" "advmod" "very" [] []) n
        ++ [tok "he" "" "PRON" "PRP" "dep" "he" [] []])%list;
     sents := [] |}.

(** Two sentences, the second opening with "But". *)
Definition happy_but_sad : string := "He is happy. But he is sad.".
Definition contrast_nlp : Annotator :=
  table_nlp [ (happy_but_sad,
               {| doc_tokens := []; sents := ["He is happy."; "But he is sad."] |}) ].

(** Two clauses on two lines, without a full stop between them, the second
    opening with "but". *)
Definition happy_but_sad_lower : string :=
  "He is happy" ++ String (ascii_of_N 10) "but he is sad.".
Definition lines_nlp : Annotator :=
  table_nlp [ (happy_but_sad_lower,
               {| doc_tokens := []; sents := ["He is happy"; "but he is sad."] |}) ].

(** "He has a MBA degree.", "MBA" tagged as a noun. *)
Definition mba_doc : Doc :=
  {| doc_tokens :=
       [ tok "He" " " "PRON" "PRP" "nsubj" "he" [] [0];
         tok "has" " " "VERB" "VBZ" "ROOT" "have" [0; 4; 5] [0; 1; 2; 3; 4; 5];
         tok "a" " " "DET" "DT" "det" "a" [] [2];
         tok "MBA" " " "NOUN" "NN" "compound" "MBA" [] [3];
         tok "degree" "" "NOUN" "NN" "dobj" "degree" [2; 3] [2; 3; 4];
         punct "." "" 5 ];
     sents := ["He has a MBA degree."] |}.

Definition mba_nlp : Annotator := table_nlp [ ("He has a MBA degree.", mba_doc) ].

(** "The team win.", also in lower case. *)
Definition the_team_win (the : string) : Doc :=
  {| doc_tokens :=
       [ tok the " " "DET" "DT" "det" "the" [] [0];
         tok "team" " " "NOUN" "NN" "nsubj" "team" [0] [0; 1];
         tok "win" "" "VERB" "VBP" "ROOT" "win" [1; 3] [0; 1; 2; 3];
         punct "." "" 3 ];
     sents := [the ++ " team win."] |}.

Definition team_nlp : Annotator :=
  table_nlp [ ("The team win.", the_team_win "The");
              ("the team win.", the_team_win "the") ].

(** "They will come, eat and sleep tomorrow.": three verb tokens. *)
Definition they_will_come (they : string) : Doc :=
  {| doc_tokens :=
       [ tok they " " "PRON" "PRP" "nsubj" "they" [] [0];
         tok "will" " " "AUX" "MD" "aux" "will" [] [1];
         tok "come" "" "VERB" "VB" "ROOT" "come" [0; 1; 3; 4; 5; 6; 7; 8]
             [0; 1; 2; 3; 4; 5; 6; 7; 8];
         punct "," " " 3;
         tok "eat" " " "VERB" "VB" "conj" "eat" [] [4];
         tok "and" " " "CCONJ" "CC" "cc" "and" [] [5];
         tok "sleep" " " "VERB" "VB" "conj" "sleep" [] [6];
         tok "tomorrow" "" "NOUN" "NN" "npadvmod" "tomorrow" [] [7];
         punct "." "" 8 ];
     sents := [they ++ " will come, eat and sleep tomorrow."] |}.

Definition come_nlp : Annotator :=
  table_nlp [ ("They will come, eat and sleep tomorrow.", they_will_come "They");
              ("they will come, eat and sleep tomorrow.", they_will_come "they") ].

(** An annotator that finds [n] verb tokens in every text, and [n] edits. *)
Definition verbs_nlp (n : nat) : Annotator :=
  fun _ => {| doc_tokens := repeat (tok "go" " " "VERB" "VB" "ROOT" "go" [] []) n;
              sents := [] |}.
Definition edits (n : nat) : list Edit :=
  repeat (edit (Some 7%Z) None [("type", VStr "future_normalize")]) n.

(** The subject-verb stage patched to raise, as in [test_error_resilience]. *)
Definition crashing_phase : Pipeline.Phase :=
  {| Pipeline.class_name := "SubjectVerbAgreementCorrector";
     Pipeline.correct := fun _ => Raise "ValueError: Simulated crash in phase" |}.

End Fixtures.

(** ** The statements of the specification, as definitions *)

Module Spec.
Import PyStr.

(** The three keys of the uniform stage contract. *)
Definition has_contract_keys (r : StageResult) : Prop :=
  corrected_text r <> None /\ issues_found r <> None /\ confidence r <> None.

(** The confidence of the tense stage. *)
Module Confidence.
Import QArith_base Qminmax Qabs.
Local Open Scope Q_scope.




End Confidence.

(** An all-caps acronym: two or more capital letters and nothing else. *)
Fixpoint all_caps (word : string) : bool :=
  match word with
  | EmptyString => true
  | String c word' => (char_isupper c && all_caps word')%bool
  end.

Definition is_acronym (word : string) : Prop :=
  all_caps word = true /\ 2 <= len word.

(** Section 4.5: "an" if the first letter is in
    {A,E,F,H,I,L,M,N,O,R,S,X}, else "a". *)
Definition acronym_article (word : string) : string :=
  match word with
  | String c0 _ =>
      if existsb (Ascii.eqb c0) (list_ascii_of_string "AEFHILMNORSX")
      then "an" else "a"
  | EmptyString => "a"
  end.

(** The acronym rule read as a rule for every acronym. *)
Definition acronym_rule_at (word : string) : Prop :=
  is_acronym word -> Articles._choose_article word = acronym_article word.

(** No string occurs twice. *)
Fixpoint distinct (l : list string) : bool :=
  match l with
  | [] => true
  | x :: l' => (negb (mem x l') && distinct l')%bool
  end.

End Spec.

(** ** Further sample annotations *)

Module Samples.
Import PyStr Fixtures.

(** "They go home.", also in lower case: nothing for any stage to do. *)
Definition they_go_home (they : string) : Doc :=
  {| doc_tokens :=
       [ tok they " " "PRON" "PRP" "nsubj" "they" [] [0];
         tok "go" " " "VERB" "VBP" "ROOT" "go" [0; 2; 3] [0; 1; 2; 3];
         tok "home" "" "ADV" "RB" "advmod" "home" [] [2];
         punct "." "" 3 ];
     sents := [they ++ " go home."] |}.

Definition home_nlp : Annotator :=
  table_nlp [ ("They go home.", they_go_home "They");
              ("they go home.", they_go_home "they") ].

(** The five phases over [home_nlp], with a checker that finds nothing. *)
Definition home_phases : list Pipeline.Phase :=
  Pipeline.phases 20 home_nlp home_nlp quiet_check quiet_correct None.

(** A stage that returns one edit without phase, name or confidence. *)
Definition bare_phase : Pipeline.Phase :=
  {| Pipeline.class_name := "ConjunctionsCorrector";
     Pipeline.correct := fun text =>
       Ok {| corrected_text := Some (text ++ "!"); issues_found := Some [edit None None []];
             confidence := None; dominant_tense := None |} |}.

End Samples.

(** ** Reference definitions for the further properties *)

Module Reference.
Import PyStr.

(** Whitespace squeezed by one pass over the characters: every run of
    whitespace becomes one space; [in_run] tells that the character before
    was whitespace. *)
Fixpoint squeeze (in_run : bool) (s : string) : string :=
  match s with
  | EmptyString => EmptyString
  | String c s' =>
      if char_isspace c
      then if in_run then squeeze true s' else String " " (squeeze true s')
      else String c (squeeze false s')
  end.

(** Every whitespace character of [s] is a space. *)
Fixpoint only_spaces (s : string) : bool :=
  match s with
  | EmptyString => true
  | String c s' => ((negb (char_isspace c) || Ascii.eqb c " ") && only_spaces s')%bool
  end.

(** The edits of the tense stage: phase 7, and neither a confidence nor a
    phase name. *)
Definition tense_edit (e : Edit) : Prop :=
  e_phase e = Some 7%Z /\ e_confidence e = None /\ e_phase_name e = None.

(** A vowel letter, as in the pattern [^[aeiou]]. *)
Definition vowel (c : ascii) : bool :=
  existsb (Ascii.eqb c) (list_ascii_of_string "aeiou").

(** The word begins with two capital letters. *)
Definition two_capitals (word : string) : bool :=
  match word with
  | String a (String b _) => (char_isupper a && char_isupper b)%bool
  | _ => false
  end.

End Reference.

(** * Properties *)

Import PyStr Pipeline.

(** ** The embedding of [str], [re] and [float] on examples *)

Example capitalize_lowers_the_rest : capitalize "bARK" = "Bark".
Proof. reflexivity. Qed.

Example isupper_ignores_digits : isupper "1ST" = true.
Proof. reflexivity. Qed.

Example preprocess_text_collapses :
  Utils.preprocess_text "  The  cat   sleeps . " = "The cat sleeps .".
Proof. vm_compute. reflexivity. Qed.

Example word_boundaries :
  Re.sub false Tense.future_re (fun g => Tense._get_base (Re.group 1 g))
         "I went and saw a seesaw."
  = "I go and see a seesaw.".
Proof. vm_compute. reflexivity. Qed.

Example greedy_group_backtracks :
  Tense._fix_aux_negation "He didn't walked home." = "He didn't walk home.".
Proof. vm_compute. reflexivity. Qed.

Example round_is_half_even_on_the_binary_value :
  (PyFloat.round 0.125 2 = 0.12 /\ PyFloat.round 0.375 2 = 0.38
   /\ PyFloat.round 2.675 2 = 2.67)%float.
Proof. repeat split; vm_compute; reflexivity. Qed.

(** ** Strings and lists *)

Lemma mem_In (x : string) (xs : list string) : mem x xs = true <-> In x xs.
Proof.
  unfold mem. rewrite existsb_exists. split.
  - intros [y [Hy Heq]]. apply String.eqb_eq in Heq. now subst.
  - intros H. exists x. split; [assumption | apply String.eqb_refl].
Qed.

Lemma distinct_NoDup (l : list string) : Spec.distinct l = true -> NoDup l.
Proof.
  induction l as [| x l IH]; simpl; intros H.
  - constructor.
  - apply andb_prop in H. destruct H as [Hx Hl].
    constructor; [| now apply IH].
    intros Hin. apply mem_In in Hin. rewrite Hin in Hx. discriminate.
Qed.

Lemma rstrip_idempotent (s : string) : rstrip (rstrip s) = rstrip s.
Proof.
  induction s as [| c s IH]; [reflexivity |].
  cbn [rstrip]. destruct (rstrip s) as [| d r] eqn:Hr.
  - destruct (char_isspace c) eqn:Hc; [reflexivity |].
    cbn [rstrip]. now rewrite Hc.
  - cbn [rstrip]. cbn [rstrip] in IH. rewrite IH. reflexivity.
Qed.

(** What [lstrip] returns does not start with a space. *)
Lemma lstrip_head (s : string) :
  match lstrip s with
  | EmptyString => True
  | String c _ => char_isspace c = false
  end.
Proof.
  induction s as [| c s IH]; [exact I |].
  cbn [lstrip]. destruct (char_isspace c) eqn:Hc; [exact IH | exact Hc].
Qed.

Lemma lstrip_rstrip (t : string) :
  match t with
  | EmptyString => True
  | String c _ => char_isspace c = false
  end ->
  lstrip (rstrip t) = rstrip t.
Proof.
  destruct t as [| c t]; [reflexivity |].
  intros Hc. cbn [rstrip].
  destruct (rstrip t); [rewrite Hc |]; cbn [lstrip]; now rewrite Hc.
Qed.

(** [s.strip().strip() == s.strip()]. *)
Lemma strip_idempotent (s : string) : strip (strip s) = strip s.
Proof.
  unfold strip.
  rewrite (lstrip_rstrip (lstrip s) (lstrip_head s)).
  apply rstrip_idempotent.
Qed.

Lemma upper_char_facts (c : ascii) :
  char_isupper c = true ->
  char_isspace c = false /\ char_upper (char_lower c) = c.
Proof.
  destruct c as [[] [] [] [] [] [] [] []]; vm_compute; intros H;
    (discriminate H || (split; reflexivity)).
Qed.

Lemma char_lower_not_upper (c : ascii) : char_isupper (char_lower c) = false.
Proof. destruct c as [[] [] [] [] [] [] [] []]; vm_compute; reflexivity. Qed.

Lemma rstrip_all_caps (w : string) : Spec.all_caps w = true -> rstrip w = w.
Proof.
  induction w as [| c w IH]; [reflexivity |].
  simpl. intros H. apply andb_prop in H. destruct H as [Hc Hw].
  rewrite (IH Hw). destruct w; [| reflexivity].
  now rewrite (proj1 (upper_char_facts c Hc)).
Qed.

Lemma strip_all_caps (w : string) : Spec.all_caps w = true -> strip w = w.
Proof.
  intros H. unfold strip.
  replace (lstrip w) with w; [now apply rstrip_all_caps |].
  destruct w as [| c w]; [reflexivity |].
  simpl in *. apply andb_prop in H.
  now rewrite (proj1 (upper_char_facts c (proj1 H))).
Qed.

Lemma upper_lower_all_caps (w : string) :
  Spec.all_caps w = true -> upper (lower w) = w.
Proof.
  induction w as [| c w IH]; [reflexivity |].
  simpl. intros H. apply andb_prop in H. destruct H as [Hc Hw].
  now rewrite (IH Hw), (proj2 (upper_char_facts c Hc)).
Qed.

(** [c in s] for one character, as a test on the characters of [s]. *)
Lemma contains_char (s : string) (c : ascii) :
  contains s (String c "") = existsb (Ascii.eqb c) (list_ascii_of_string s).
Proof.
  induction s as [| b s IH]; [reflexivity |].
  cbn [contains startswith list_ascii_of_string existsb].
  rewrite IH. destruct s; now rewrite andb_true_r.
Qed.

(** A lower-cased text never starts with a capitalized word. *)
Lemma startswith_lower_capital (s p : string) (c : ascii) :
  char_isupper c = true -> startswith (lower s) (String c p) = false.
Proof.
  intros Hc. destruct s as [| a s]; [reflexivity |].
  cbn [lower startswith].
  destruct (Ascii.eqb_spec c (char_lower a)) as [-> | _]; [| reflexivity].
  now rewrite char_lower_not_upper in Hc.
Qed.

(** ** The pipeline: failure isolation and the round trip *)

Lemma run_phases_app (before after : list Phase) :
  forall (i : Z) (current : string) (all_edits : list Edit),
    run_phases (before ++ after) i current all_edits
    = bind (run_phases before i current all_edits)
           (fun r => run_phases after (i + Z.of_nat (List.length before))
                                (fst r) (snd r)).
Proof.
  induction before as [| phase before IH]; intros i current all_edits.
  - simpl. now rewrite Z.add_0_r.
  - cbn [app run_phases List.length].
    replace (i + Z.of_nat (S (List.length before)))%Z
      with (i + 1 + Z.of_nat (List.length before))%Z by lia.
    destruct (correct phase current) as [result | e |]; cbn [bind];
      [apply IH | apply IH | reflexivity].
Qed.

(** The loop swallows every exception of a stage. *)
Lemma run_phases_never_raises (phases : list Phase) :
  forall i current all_edits e,
    run_phases phases i current all_edits <> Raise e.
Proof.
  induction phases as [| phase phases IH]; intros i current all_edits e; simpl.
  - discriminate.
  - destruct (correct phase current); [apply IH | apply IH | discriminate].
Qed.

(** With stages that return or raise, the loop returns. *)
Lemma run_phases_returns (phases : list Phase) :
  (forall p s, In p phases -> correct p s <> OutOfFuel) ->
  forall i current all_edits,
    exists final_text final_edits,
      run_phases phases i current all_edits = Ok (final_text, final_edits).
Proof.
  induction phases as [| phase phases IH]; intros Hfuel i current all_edits; simpl.
  - eauto.
  - assert (Hrest : forall p s, In p phases -> correct p s <> OutOfFuel)
      by (intros p s Hin; apply Hfuel; now right).
    destruct (correct phase current) as [result | e |] eqn:Hc.
    + apply IH, Hrest.
    + apply IH, Hrest.
    + exfalso. apply (Hfuel phase current); [now left | assumption].
Qed.

(** C1: when the [correct] of a stage raises during [run], the loop goes
    on with the next stage from the text and the edits it had before that
    stage, so the stage changes neither, and [run] returns a trace built
    from what the remaining stages produce. *)
Theorem failing_stage_is_isolated :
  forall (before after : list Phase) (phase : Phase) (clock : Clock)
         (text current : string) (all_edits : list Edit) (e : string),
    strip text <> "" ->
    run_phases before 6 (strip text) [] = Ok (current, all_edits) ->
    correct phase current = Raise e ->
    (forall p s, In p after -> correct p s <> OutOfFuel) ->
    run_phases (before ++ [phase]) 6 (strip text) [] = Ok (current, all_edits)
    /\ run_phases (before ++ phase :: after) 6 (strip text) []
       = run_phases after (6 + Z.of_nat (List.length before) + 1) current all_edits
    /\ exists final_text final_edits trace,
         run_phases after (6 + Z.of_nat (List.length before) + 1) current all_edits
         = Ok (final_text, final_edits)
         /\ run (before ++ phase :: after) clock text = Ok trace
         /\ Trace.corrected_text trace = strip final_text
         /\ Trace.edits trace = final_edits
         /\ Trace.total_fixed trace = List.length final_edits.
Proof.
  intros before after phase clock text current all_edits e Htext Hbefore Hraise Hafter.
  assert (Hstep : forall rest,
             run_phases (before ++ phase :: rest) 6 (strip text) []
             = run_phases rest (6 + Z.of_nat (List.length before) + 1) current all_edits).
  { intros rest. rewrite run_phases_app, Hbefore. cbn [bind fst snd run_phases].
    now rewrite Hraise. }
  split; [| split].
  - rewrite (Hstep []). reflexivity.
  - apply Hstep.
  - destruct (run_phases_returns after Hafter
                (6 + Z.of_nat (List.length before) + 1) current all_edits)
      as [final_text [final_edits Hrun]].
    exists final_text, final_edits. eexists. split; [exact Hrun |].
    unfold run. destruct (String.eqb_spec (strip text) ""); [contradiction |].
    rewrite Hstep, Hrun. cbn [bind]. repeat split.
Qed.

Lemma failing_stage_is_isolated_witness :
  exists trace,
    run (Fixtures.crashing_phase
           :: tl (phases 20 Fixtures.team_nlp Fixtures.team_nlp Fixtures.quiet_check
                         Fixtures.quiet_correct None))
        Fixtures.clock0 "The team win." = Ok trace
    /\ Trace.corrected_text trace = "The team win."
    /\ Trace.edits trace = [].
Proof.
  destruct (failing_stage_is_isolated []
              (tl (phases 20 Fixtures.team_nlp Fixtures.team_nlp Fixtures.quiet_check
                          Fixtures.quiet_correct None))
              Fixtures.crashing_phase Fixtures.clock0 "The team win."
              "The team win." [] "ValueError: Simulated crash in phase")
    as [_ [_ [final_text [final_edits [trace [Hrun [Htrace [Htext [Hedits _]]]]]]]]].
  - vm_compute. discriminate.
  - vm_compute. reflexivity.
  - reflexivity.
  - intros p s Hin. simpl in Hin.
    destruct Hin as [<- | [<- | [<- | [<- | []]]]]; discriminate.
  - exists trace. vm_compute in Hrun. injection Hrun as <- <-.
    repeat split; assumption.
Defined.

(** When every stage raises, [run] returns the stripped input, no edit and
    confidence 1.0. *)
Lemma run_when_every_stage_raises (phases : list Phase) (clock : Clock) (text : string) :
  strip text <> "" ->
  (forall p s, In p phases -> exists e, correct p s = Raise e) ->
  exists trace,
    run phases clock text = Ok trace
    /\ Trace.corrected_text trace = strip text
    /\ Trace.edits trace = []
    /\ Trace.total_fixed trace = 0
    /\ Trace.confidence_avg trace = 1%float.
Proof.
  intros Hne Hraise.
  assert (Hloop : forall i current, run_phases phases i current [] = Ok (current, [])).
  { induction phases as [| phase phases IH]; intros i current; [reflexivity |].
    cbn [run_phases].
    destruct (Hraise phase current (or_introl eq_refl)) as [e ->].
    apply IH. intros p s Hin. apply Hraise. now right. }
  unfold run. destruct (String.eqb_spec (strip text) ""); [contradiction |].
  rewrite Hloop. cbn [bind]. eexists. split; [reflexivity |].
  cbn. rewrite strip_idempotent. repeat split.
Qed.

(** A text that every stage returns unchanged and without an edit comes
    out of [run] unchanged, with no fix and confidence 1.0. *)
Lemma silent_stages_round_trip (phases : list Phase) (clock : Clock) (text : string) :
  text <> "" -> strip text = text ->
  (forall p, In p phases ->
     exists r, correct p text = Ok r /\ corrected_text r = Some text
               /\ issues_found r = Some []) ->
  exists trace,
    run phases clock text = Ok trace
    /\ Trace.corrected_text trace = text
    /\ Trace.total_fixed trace = 0
    /\ Trace.confidence_avg trace = 1%float.
Proof.
  intros Hne Hstrip Hsilent.
  assert (Hloop : forall i, run_phases phases i text [] = Ok (text, [])).
  { induction phases as [| phase phases IH]; intros i; [reflexivity |].
    cbn [run_phases].
    destruct (Hsilent phase (or_introl eq_refl)) as [r [-> [-> ->]]].
    cbn [map app]. apply IH. intros p Hin. apply Hsilent. now right. }
  unfold run. rewrite Hstrip.
  destruct (String.eqb_spec text ""); [contradiction |].
  rewrite Hloop. cbn [bind]. eexists. split; [reflexivity |].
  cbn. rewrite Hstrip. repeat split.
Qed.

(** C2: no stage changes "They will go tomorrow.", yet the tense stage
    records a [future_normalize] edit on it, and [run] returns the text
    with one fix and confidence 0.95 instead of 1.0. *)
Theorem unchanged_future_text_scores_095 :
  let text := "They will go tomorrow." in
  let nlp := Fixtures.future_nlp in
  let stages := phases 20 nlp nlp Fixtures.quiet_check Fixtures.quiet_correct None in
  Forall (fun p => exists r, correct p text = Ok r /\ corrected_text r = Some text)
         stages
  /\ run stages Fixtures.clock0 text
     = Ok {| Trace.id := Some "aiwave_20250101_000000";
             Trace.input_text := Some text;
             Trace.corrected_text := text;
             Trace.total_fixed := 1;
             Trace.confidence_avg := 0.95%float;
             Trace.f1_score := Some 0.95%float;
             Trace.runtime_sec := Some 0%float;
             Trace.timestamp := Some "2025-01-01T00:00:00";
             Trace.edits :=
               [{| e_phase := Some 7%Z;
                   e_phase_name := Some "TenseConsistencyCorrector";
                   e_confidence := Some 0.95%float;
                   e_fields := [("type", VStr "future_normalize")] |}] |}.
Proof.
  cbv zeta. split.
  - repeat constructor; eexists; (split; [vm_compute; reflexivity | reflexivity]).
  - vm_compute. reflexivity.
Qed.

(** ** The stage contract *)

(** C3: on a blank text the pronoun stage and the conjunction stage return
    a mapping without the [confidence] key. *)
Theorem blank_result_lacks_confidence :
  forall nlp : Annotator,
    Pronoun.correct nlp "  "
    = {| corrected_text := Some "  "; issues_found := Some [];
         confidence := None; dominant_tense := None |}
    /\ Conjunctions.correct nlp ""
       = {| corrected_text := Some ""; issues_found := Some [];
            confidence := None; dominant_tense := None |}.
Proof. intros nlp. split; reflexivity. Qed.

(** The key is missing on every blank text. *)
Lemma pronoun_blank_result (nlp : Annotator) (text : string) :
  strip text = "" -> confidence (Pronoun.correct nlp text) = None.
Proof. intros H. unfold Pronoun.correct. now rewrite H. Qed.

Lemma conjunctions_blank_result (nlp : Annotator) (text : string) :
  strip text = "" -> confidence (Conjunctions.correct nlp text) = None.
Proof. intros H. unfold Conjunctions.correct. now rewrite H. Qed.

(** The stages of phases 6, 7 and 10 return the three keys on every text;
    those of phases 8 and 9 on every text that is not blank. *)
Lemma subject_verb_keys nlp tool fuel text r :
  SubjectVerb.correct nlp tool fuel text = Ok r -> Spec.has_contract_keys r.
Proof.
  unfold SubjectVerb.correct.
  destruct (String.eqb _ ""); [intros [= <-]; repeat split; discriminate |].
  destruct (match tool _ with Some _ => _ | None => _ end) as [text' issues].
  destruct (SubjectVerb.rule_engine _ _ _ _ _ _) as [[toks iss] | e |];
    simpl; [| discriminate | discriminate].
  intros [= <-]. repeat split; discriminate.
Qed.

Lemma tense_keys nlp tool_check tool_correct gf model text :
  Spec.has_contract_keys (Tense.correct nlp tool_check tool_correct gf model text).
Proof.
  unfold Tense.correct.
  destruct (String.eqb _ ""); [repeat split; discriminate |].
  destruct (fold_left _ _ _) as [sentences issues].
  repeat split; discriminate.
Qed.

Lemma articles_keys nlp tool text :
  Spec.has_contract_keys (Articles.correct nlp tool text).
Proof.
  unfold Articles.correct.
  destruct (String.eqb _ ""); [repeat split; discriminate |].
  destruct (match tool _ with Some _ => _ | None => _ end) as [text' issues].
  destruct (fold_left _ _ _) as [toks iss].
  repeat split; discriminate.
Qed.

Lemma pronoun_keys nlp text :
  strip text <> "" -> Spec.has_contract_keys (Pronoun.correct nlp text).
Proof.
  intros H. unfold Pronoun.correct.
  destruct (String.eqb_spec (strip text) ""); [contradiction |].
  destruct (fold_left _ _ _) as [toks iss].
  repeat split; discriminate.
Qed.

Lemma conjunctions_keys nlp text :
  strip text <> "" -> Spec.has_contract_keys (Conjunctions.correct nlp text).
Proof.
  intros H. unfold Conjunctions.correct.
  destruct (String.eqb_spec (strip text) ""); [contradiction |].
  destruct (map strip (sents (nlp text))) as [| first [| second others]];
    try (repeat split; discriminate).
  destruct (Conjunctions.connect_all _ _ _ _) as [enhanced issues].
  repeat split; discriminate.
Qed.

(** ** Phase 6: the capitalization of the replacement *)

(** A verb that starts with a capital takes the first branch: its
    replacement is capitalized, whatever the case of its other letters. *)
Lemma preserve_case_leading_capital (c : ascii) (rest target : string) :
  char_isupper c = true ->
  SubjectVerb.preserve_case (String c rest) target = Ok (capitalize target).
Proof. intros H. unfold SubjectVerb.preserve_case. now rewrite H. Qed.

(** A verb is replaced only by a form that differs from it when both are
    lower-cased, and the replacement of a verb with a leading capital is
    the capitalized conjugated form. *)
Lemma target_of_replacement (doc : Doc) (token subj : Token.t) (target : string) :
  SubjectVerb.target_of doc token = Ok (Some (target, subj)) ->
  lower target <> lower (Token.text token)
  /\ exists form,
       SubjectVerb._conjugate (lower (Token.lemma_ token))
         (SubjectVerb.subject_number doc subj) = Ok form
       /\ SubjectVerb.preserve_case (Token.text token) form = Ok target.
Proof.
  unfold SubjectVerb.target_of.
  destruct (_ || _)%bool; [discriminate |].
  destruct (filter _ _) as [| subj' others]; [discriminate |].
  destruct (SubjectVerb._conjugate _ _) as [form | e |] eqn:Hform;
    cbn [bind]; try discriminate.
  destruct (String.eqb form ""); [discriminate |].
  destruct (SubjectVerb.preserve_case _ form) as [cased | e |] eqn:Hcase;
    cbn [bind]; try discriminate.
  destruct (String.eqb_spec (lower cased) (lower (Token.text token))) as [| Hne];
    cbn [negb]; [discriminate |].
  intros [= <- <-]. split; [exact Hne |].
  exists form. split; [exact Hform | exact Hcase].
Qed.

(** C4: the all-capitals verb "BARKS" after the plural subject "DOGS" is
    replaced by "Bark", capitalized and not all-capitals: the test for a
    leading capital comes first and wins. *)
Theorem all_caps_verb_is_capitalized :
  isupper "BARKS" = true
  /\ SubjectVerb.preserve_case "BARKS" "bark" = Ok "Bark"
  /\ SubjectVerb.correct Fixtures.caps_nlp Fixtures.quiet_correct 20 "THE DOGS BARKS."
     = Ok {| corrected_text := Some "THE DOGS Bark.";
             issues_found :=
               Some [SubjectVerb.rule_edit "BARKS" "Bark" "DOGS"];
             confidence := Some 0.98%float; dominant_tense := None |}.
Proof. repeat split; vm_compute; reflexivity. Qed.

(** ** Phase 7: the future branch, the confidence, the irregular table *)

(** The future branch records its edit whatever the sentence is. *)
Lemma future_branch_always_records (nlp : Annotator) (s : string) :
  List.length (snd (Tense._apply_rules nlp s "future")) = 1.
Proof. reflexivity. Qed.

(** In the future branch 36 of the 40 past forms of the table stay as they
    are. *)
Lemma future_branch_rewrites_four_forms (nlp : Annotator) :
  map snd (filter (fun bp : string * string =>
                     negb (String.eqb (fst (Tense._apply_rules nlp (snd bp) "future"))
                                      (snd bp)))
                  Tense.irregular)
  = ["went"; "bought"; "came"; "saw"].
Proof. vm_compute. reflexivity. Qed.

(** C5: in the future branch of [_apply_rules] the sentence
    "She will eat and he ate." keeps "ate", the past form of "eat" in the
    irregular table, and a [future_normalize] edit is recorded although
    nothing was rewritten. *)
Theorem future_branch_keeps_ate :
  forall nlp : Annotator,
    Tense._apply_rules nlp "She will eat and he ate." "future"
    = ("She will eat and he ate.",
       [edit (Some 7%Z) None [("type", VStr "future_normalize")]])
    /\ In ("eat", "ate") Tense.irregular.
Proof.
  intros nlp. split.
  - vm_compute. reflexivity.
  - vm_compute. tauto.
Qed.





(** The formula on floats: 0.8 + 0.125 * 0.2 lies above 0.825, and the
    halfway case goes up. *)
Example tense_confidence_1_of_8 :
  Tense._compute_confidence (Fixtures.verbs_nlp 8) "" (Fixtures.edits 1) = 0.83%float.
Proof. vm_compute. reflexivity. Qed.

Example tense_confidence_3_of_2 :
  Tense._compute_confidence (Fixtures.verbs_nlp 2) "" (Fixtures.edits 3) = 1%float.
Proof. vm_compute. reflexivity. Qed.

Example tense_confidence_0_of_3 :
  Tense._compute_confidence (Fixtures.verbs_nlp 3) "" (Fixtures.edits 0) = 0.8%float.
Proof. vm_compute. reflexivity. Qed.

Lemma irregular_pairs_checked :
  forallb (fun bp : string * string =>
             (String.eqb (Tense._past_participle (fst bp)) (snd bp)
              && String.eqb (Tense._get_base (snd bp)) (fst bp))%bool)
          Tense.irregular = true.
Proof. vm_compute. reflexivity. Qed.

(** C10: the irregular table of the tense stage pairs each base form with
    one past form and each past form with one base form, and on every pair
    of the table [_past_participle] maps the base to the past and
    [_get_base] maps the past back to the base. *)
Theorem irregular_round_trip :
  NoDup (map fst Tense.irregular) /\
  NoDup (map snd Tense.irregular) /\
  forall base past, In (base, past) Tense.irregular ->
    Tense._past_participle base = past /\ Tense._get_base past = base.
Proof.
  split; [| split].
  - apply distinct_NoDup. vm_compute. reflexivity.
  - apply distinct_NoDup. vm_compute. reflexivity.
  - intros base past Hin.
    pose proof irregular_pairs_checked as Hall.
    rewrite forallb_forall in Hall. specialize (Hall _ Hin). cbn [fst snd] in Hall.
    apply andb_prop in Hall. destruct Hall as [Hp Hb].
    split; now apply String.eqb_eq.
Qed.

Lemma irregular_round_trip_witness :
  Tense._past_participle "go" = "went" /\ Tense._get_base "went" = "go".
Proof.
  apply (proj2 (proj2 irregular_round_trip) "go" "went").
  simpl. left. reflexivity.
Defined.

(** ** Phase 8: the window of the antecedent search *)

(** The positions of the range: from [start] down to [stop + 1]. *)
Lemma range_down_In (start stop j : Z) :
  In j (Pronoun.range_down start stop) <-> (stop < j <= start)%Z.
Proof.
  unfold Pronoun.range_down. rewrite in_map_iff. split.
  - intros [k [Hk Hin]]. apply in_seq in Hin. lia.
  - intros H. exists (Z.to_nat (start - j)). split; [lia |].
    apply in_seq. lia.
Qed.

(** What the loop returns: a candidate at one of the positions. *)
Lemma first_candidate_In doc positions j t :
  Pronoun.first_candidate doc positions = Some (j, t) ->
  In j positions /\ nth_error (doc_tokens doc) (Z.to_nat j) = Some t
  /\ Pronoun.candidate t = true.
Proof.
  induction positions as [| p ps IH]; simpl; [discriminate |].
  destruct (nth_error (doc_tokens doc) (Z.to_nat p)) as [tp |] eqn:Hp.
  - destruct (Pronoun.candidate tp) eqn:Hc.
    + intros [= <- <-]. auto.
    + intros H. destruct (IH H) as [? [? ?]]. auto.
  - intros H. destruct (IH H) as [? [? ?]]. auto.
Qed.

(** What the search returns lies at most 19 tokens before the pronoun. *)
Lemma find_antecedent_window (i : nat) (doc : Doc) j t :
  Pronoun._find_antecedent i doc = Some (j, t) ->
  (Z.of_nat i - 19 <= j <= Z.of_nat i - 1)%Z /\ (0 <= j)%Z
  /\ nth_error (doc_tokens doc) (Z.to_nat j) = Some t
  /\ Pronoun.candidate t = true.
Proof.
  unfold Pronoun._find_antecedent. intros H.
  apply first_candidate_In in H. destruct H as [Hin [Hnth Hc]].
  apply range_down_In in Hin. repeat split; try assumption; lia.
Qed.

(** Among the positions it looks at the search returns the nearest
    candidate, and it returns nothing only if none of them holds one. *)
Lemma first_candidate_nearest doc positions j t :
  Pronoun.first_candidate doc positions = Some (j, t) ->
  exists nearer farther,
    positions = (nearer ++ j :: farther)%list
    /\ forall k tk, In k nearer -> nth_error (doc_tokens doc) (Z.to_nat k) = Some tk ->
                    Pronoun.candidate tk = false.
Proof.
  induction positions as [| p ps IH]; simpl; [discriminate |].
  destruct (nth_error (doc_tokens doc) (Z.to_nat p)) as [tp |] eqn:Hp.
  - destruct (Pronoun.candidate tp) eqn:Hc.
    + intros [= <- <-]. exists [], ps. split; [reflexivity | intros k tk []].
    + intros H. destruct (IH H) as [nearer [farther [-> Hn]]].
      exists (p :: nearer), farther. split; [reflexivity |].
      intros k tk [<- | Hin] Hk; [congruence | eauto].
  - intros H. destruct (IH H) as [nearer [farther [-> Hn]]].
    exists (p :: nearer), farther. split; [reflexivity |].
    intros k tk [<- | Hin] Hk; [congruence | eauto].
Qed.

(** Without a result, no position of the list holds a candidate. *)
Lemma first_candidate_none doc positions :
  Pronoun.first_candidate doc positions = None ->
  forall k tk, In k positions -> nth_error (doc_tokens doc) (Z.to_nat k) = Some tk ->
               Pronoun.candidate tk = false.
Proof.
  induction positions as [| p ps IH]; simpl; [intros _ k tk [] |].
  destruct (nth_error (doc_tokens doc) (Z.to_nat p)) as [tp |] eqn:Hp.
  - destruct (Pronoun.candidate tp) eqn:Hc; [discriminate |].
    intros H k tk [<- | Hin] Hk; [congruence | eauto].
  - intros H k tk [<- | Hin] Hk; [congruence | eauto].
Qed.

(** The search gives up only if none of the 19 tokens before the pronoun
    is a candidate. *)
Lemma find_antecedent_none (i : nat) (doc : Doc) :
  Pronoun._find_antecedent i doc = None ->
  forall k tk, (Z.of_nat i - 19 <= k <= Z.of_nat i - 1)%Z -> (0 <= k)%Z ->
               nth_error (doc_tokens doc) (Z.to_nat k) = Some tk ->
               Pronoun.candidate tk = false.
Proof.
  unfold Pronoun._find_antecedent. intros H k tk Hk H0.
  apply (first_candidate_none _ _ H). apply range_down_In. lia.
Qed.

(** C6: with the only noun 20 tokens before the pronoun the search returns
    nothing and the pronoun is left alone, while the same noun 19 tokens
    before the pronoun is found and the pronoun is rewritten: the search
    looks at 19 tokens, not at 20. *)
Theorem antecedent_at_distance_20_is_missed :
  let he := Fixtures.tok "he" "" "PRON" "PRP" "dep" "he" [] [] in
  (exists mary, nth_error (doc_tokens (Fixtures.mary_then_he 19)) 0 = Some mary
                /\ Pronoun.candidate mary = true)
  /\ nth_error (doc_tokens (Fixtures.mary_then_he 19)) 20 = Some he
  /\ Pronoun._find_antecedent 20 (Fixtures.mary_then_he 19) = None
  /\ Pronoun.fix_token (Fixtures.mary_then_he 19) 20 he = None
  /\ nth_error (doc_tokens (Fixtures.mary_then_he 18)) 19 = Some he
  /\ (exists mary, Pronoun._find_antecedent 19 (Fixtures.mary_then_he 18)
                   = Some (0%Z, mary))
  /\ (exists e, Pronoun.fix_token (Fixtures.mary_then_he 18) 19 he = Some ("she", e)).
Proof.
  cbv zeta. repeat split; try (vm_compute; reflexivity).
  - eexists. split; vm_compute; reflexivity.
  - eexists. vm_compute. reflexivity.
  - eexists. vm_compute. reflexivity.
Qed.

(** ** Phase 9: the connector check *)

(** The connectors [_choose_connector] can return. *)
Lemma choose_connector_values (prev curr : string) :
  In (fst (Conjunctions._choose_connector prev curr))
     [""; "but"; "so"; "therefore"; "then"; "and"].
Proof.
  unfold Conjunctions._choose_connector.
  repeat match goal with
         | |- context [if ?b then _ else _] => destruct b
         end; simpl; tauto.
Qed.

(** After a sentence that ends with [.], [!] or [?] the check never holds:
    every chosen connector is inserted, also before a sentence that begins
    with it. *)
Lemma connect_after_full_stop (prev curr : string) (enhanced : list string) :
  Conjunctions.ends_sentence prev = true ->
  fst (Conjunctions._choose_connector prev curr) <> "" ->
  fst (Conjunctions.connect prev curr enhanced)
  = (enhanced
     ++ [(" " ++ capitalize (fst (Conjunctions._choose_connector prev curr))
          ++ ", " ++ curr)%string])%list.
Proof.
  intros Hend Hconn. unfold Conjunctions.connect.
  pose proof (choose_connector_values prev curr) as Hin.
  destruct (Conjunctions._choose_connector prev curr) as [connector reason].
  cbn [fst] in *. rewrite Hend.
  destruct Hin as [<- | Hin]; [contradiction |].
  repeat (destruct Hin as [<- | Hin];
          [cbn [String.eqb Ascii.eqb negb capitalize char_upper];
           rewrite startswith_lower_capital by reflexivity; reflexivity |]).
  contradiction.
Qed.

(** Every chosen connector gives one edit, inserted or not. *)
Lemma connect_records_edit (prev curr : string) (enhanced : list string) :
  fst (Conjunctions._choose_connector prev curr) <> "" ->
  List.length (snd (Conjunctions.connect prev curr enhanced)) = 1.
Proof.
  intros Hconn. unfold Conjunctions.connect.
  destruct (Conjunctions._choose_connector prev curr) as [connector reason].
  cbn [fst] in Hconn.
  destruct (String.eqb_spec connector ""); [contradiction | reflexivity].
Qed.

(** C7: after "He is happy." the connector is capitalized and compared
    with the lower-cased sentence, so "But" is inserted before
    "But he is sad.", which already begins with it; and after "He is happy"
    on a line of its own, where the check succeeds, nothing is inserted
    before "but he is sad." and the edit is recorded all the same. *)
Theorem connector_inserted_twice :
  Conjunctions.correct Fixtures.contrast_nlp Fixtures.happy_but_sad
  = {| corrected_text := Some "He is happy. But, But he is sad.";
       issues_found :=
         Some [edit None (Some 0.99%float)
                 [("span", VSpan 12 32); ("orig", VStr ""); ("repl", VStr "But");
                  ("type", VStr "connector"); ("reason", VStr "contrast")]];
       confidence := Some 0.99%float; dominant_tense := None |}
  /\ Conjunctions.correct Fixtures.lines_nlp Fixtures.happy_but_sad_lower
     = {| corrected_text := Some "He is happy but he is sad.";
          issues_found :=
            Some [edit None (Some 0.99%float)
                    [("span", VSpan 11 26); ("orig", VStr ""); ("repl", VStr "but");
                     ("type", VStr "connector"); ("reason", VStr "contrast")]];
          confidence := Some 0.99%float; dominant_tense := None |}.
Proof. split; vm_compute; reflexivity. Qed.

(** ** Phase 10: the article before an acronym *)

(** [[A-Z]*$] runs to the end of a text of capitals. *)
Lemma star_upper_to_end (s : string) :
  forall (p : option ascii) (gs : list (nat * string)) (fuel : nat),
    Spec.all_caps s = true -> len s < fuel ->
    exists st,
      Re.star_iter (Re.rmatch false (Re.Cls char_isupper))
        (fun st' => Re.rmatch false Re.Eol st' (fun st => Some st))
        fuel (Re.MState p s gs) = Some st.
Proof.
  induction s as [| c s IH]; intros p gs fuel Hcaps Hfuel.
  - destruct fuel as [| fuel]; [simpl in Hfuel; lia |].
    simpl. eauto.
  - destruct fuel as [| fuel]; [simpl in Hfuel; lia |].
    simpl in Hcaps. apply andb_prop in Hcaps. destruct Hcaps as [Hc Hs].
    simpl in Hfuel.
    destruct (IH (Some c) gs fuel Hs ltac:(lia)) as [st Hst].
    exists st. cbn [Re.star_iter].
    cbn [Re.rmatch Re.step1 Re.rest Re.cls_match Re.groups]. rewrite Hc.
    cbn [Re.rest len String.length].
    replace (Nat.ltb _ _) with true by (symmetry; apply Nat.ltb_lt; unfold len; lia).
    match goal with
    | |- context [Re.star_iter ?m ?k ?f ?s0] =>
        replace (Re.star_iter m k f s0) with (Some st) by (symmetry; exact Hst)
    end.
    reflexivity.
Qed.

(** The pattern of [_choose_article] accepts every acronym. *)
Lemma acronym_re_matches (word : string) :
  Spec.is_acronym word -> Re.match_ false Articles.acronym_re word = true.
Proof.
  intros [Hcaps Hlen].
  destruct word as [| a [| b rest]]; simpl in Hlen; try lia.
  simpl in Hcaps. apply andb_prop in Hcaps. destruct Hcaps as [Ha Hcaps].
  apply andb_prop in Hcaps. destruct Hcaps as [Hb Hrest].
  unfold Re.match_, Re.match_here, Articles.acronym_re, Re.AtLeast2.
  cbn [Re.rmatch Re.prev Re.step1 Re.rest Re.cls_match Re.groups].
  rewrite Ha, Hb. cbn [Re.rest].
  destruct (star_upper_to_end rest (Some b) [] (S (len rest)) Hrest (Nat.lt_succ_diag_r _))
    as [st Hst].
  match goal with
  | |- context [Re.star_iter ?m ?k ?f ?s0] =>
      replace (Re.star_iter m k f s0) with (Some st) by (symmetry; exact Hst)
  end.
  reflexivity.
Qed.

(** Against C8 as stated: the acronym rule fails on "EUROPEAN", an
    all-caps word whose first letter is in the letter set and which is in
    the a-before-u list: it gets "a". *)
Lemma acronym_rule_fails_for_european : ~ Spec.acronym_rule_at "EUROPEAN".
Proof.
  unfold Spec.acronym_rule_at. intros H.
  assert (Hacr : Spec.is_acronym "EUROPEAN") by (split; vm_compute; [reflexivity | lia]).
  specialize (H Hacr). vm_compute in H. discriminate.
Qed.

(** Outside the two exception lists the acronym pattern decides, and of
    the words of the lists only "european" disagrees with the letter set. *)
Lemma choose_article_acronym (word : string) :
  Spec.is_acronym word -> word <> "EUROPEAN" ->
  Articles._choose_article word = Spec.acronym_article word.
Proof.
  intros Hacr Hne.
  pose proof Hacr as [Hcaps Hlen].
  unfold Articles._choose_article.
  rewrite (strip_all_caps word Hcaps), (acronym_re_matches word Hacr).
  destruct word as [| c0 rest]; [simpl in Hlen; lia |].
  pose proof Hcaps as Hc0. simpl in Hc0. apply andb_prop in Hc0.
  destruct Hc0 as [Hc0 _].
  assert (Hfirst : forall x r, lower (String c0 rest) = String x r ->
                               c0 = char_upper x).
  { intros x r [= <- _]. symmetry. apply upper_char_facts, Hc0. }
  replace (String.eqb (lower (String c0 rest)) "") with false by reflexivity.
  destruct (mem (lower (String c0 rest)) Articles.AN_BEFORE_H) eqn:HH.
  { apply mem_In in HH. simpl in HH.
    repeat (destruct HH as [HH | HH];
            [symmetry in HH; rewrite (Hfirst _ _ HH); reflexivity |]).
    contradiction. }
  destruct (mem (lower (String c0 rest)) Articles.A_BEFORE_U) eqn:HU.
  { apply mem_In in HU. simpl in HU.
    destruct HU as [HU | [HU | [HU | [HU | [HU | [HU | [HU | [HU | []]]]]]]]];
      symmetry in HU;
      try (rewrite (Hfirst _ _ HU); reflexivity).
    exfalso. apply Hne.
    rewrite <- (upper_lower_all_caps _ Hcaps). cbn [lower]. now rewrite HU. }
  unfold Spec.acronym_article. now rewrite contains_char.
Qed.

(** In the loop of the stage: an article before such an acronym, when the
    acronym is a noun or an adjective whose lemma is in neither the
    zero-article nor the uncountable set, is kept if it is the article of
    the rule and replaced by it otherwise. *)
Lemma acronym_article_in_stage (doc : Doc) (i : nat) (token next_tok : Token.t) :
  Token.is_punct token = false -> Token.is_space token = false ->
  mem (lower (Token.text token)) ["a"; "an"] = true ->
  Articles.next_content doc i = Some next_tok ->
  mem (Token.pos_ next_tok) ["NOUN"; "ADJ"] = true ->
  mem (lower (Token.lemma_ next_tok)) Articles.ZERO_ARTICLE = false ->
  mem (lower (Token.lemma_ next_tok)) Articles.UNCOUNTABLES = false ->
  Spec.is_acronym (Token.text next_tok) -> Token.text next_tok <> "EUROPEAN" ->
  Articles.fix_token doc i token
  = let article := Spec.acronym_article (Token.text next_tok) in
    if String.eqb article (lower (Token.text token)) then None
    else Some (article ++ Token.whitespace_ token,
               Articles.a10 "a_an_fixed" 0.98
                 [("orig", VStr (Token.text token)); ("repl", VStr article);
                  ("noun", VStr (lower (Token.lemma_ next_tok)))]).
Proof.
  intros Hp Hs Ha Hnext Hpos Hzero Hunc Hacr Hne.
  unfold Articles.fix_token.
  rewrite Hp, Hs, Ha, Hnext, Hpos, Hzero, Hunc.
  rewrite (choose_article_acronym _ Hacr Hne).
  cbn [orb negb]. cbv zeta.
  now destruct (String.eqb _ _).
Qed.

(** C8 (as amended): for every all-caps acronym other than "EUROPEAN",
    [_choose_article] returns "an" if the first letter is in
    {A,E,F,H,I,L,M,N,O,R,S,X} and "a" otherwise; and with "MBA" tagged as a
    noun and a checker that leaves the sentence alone or fails,
    [correct("He has a MBA degree.")] returns "He has an MBA degree." with
    one [a_an_fixed] edit. *)
Theorem acronym_article_choice :
  (forall word : string,
      Spec.is_acronym word -> word <> "EUROPEAN" ->
      Articles._choose_article word = Spec.acronym_article word)
  /\ (forall (nlp : Annotator) (tool : ToolCorrect),
        nlp "He has a MBA degree." = Fixtures.mba_doc ->
        tool "He has a MBA degree." = Some "He has a MBA degree."
        \/ tool "He has a MBA degree." = None ->
        Articles.correct nlp tool "He has a MBA degree."
        = {| corrected_text := Some "He has an MBA degree.";
             issues_found :=
               Some [Articles.a10 "a_an_fixed" 0.98
                       [("orig", VStr "a"); ("repl", VStr "an"); ("noun", VStr "mba")]];
             confidence := Some 0.99%float; dominant_tense := None |}).
Proof.
  split.
  - exact choose_article_acronym.
  - intros nlp tool Hdoc Htool. unfold Articles.correct.
    change (Utils.preprocess_text "He has a MBA degree.")
      with "He has a MBA degree.".
    assert (Hlt : match tool "He has a MBA degree." with
                  | Some lt_corrected =>
                      if negb (String.eqb lt_corrected "He has a MBA degree.")
                      then (lt_corrected,
                            [Articles.a10 "LT" 0.98
                               [("orig", VStr "He has a MBA degree.");
                                ("repl", VStr lt_corrected)]])
                      else ("He has a MBA degree.", [])
                  | None => ("He has a MBA degree.", [])
                  end = ("He has a MBA degree.", [])).
    { destruct Htool as [-> | ->]; reflexivity. }
    cbn [strip]. rewrite Hlt, Hdoc. vm_compute. reflexivity.
Qed.

Lemma acronym_article_choice_witness :
  Articles._choose_article "MBA" = "an"
  /\ corrected_text (Articles.correct Fixtures.mba_nlp Fixtures.quiet_correct
                       "He has a MBA degree.")
     = Some "He has an MBA degree.".
Proof.
  split.
  - apply (proj1 acronym_article_choice "MBA").
    + split; vm_compute; [reflexivity | lia].
    + discriminate.
  - rewrite (proj2 acronym_article_choice Fixtures.mba_nlp Fixtures.quiet_correct).
    + reflexivity.
    + reflexivity.
    + left. reflexivity.
Defined.

(** * Further properties of the code *)

(** ** pipeline.py *)

Lemma run_phases_defaulted (phases : list Phase) :
  forall i current all_edits final_text final_edits,
    run_phases phases i current all_edits = Ok (final_text, final_edits) ->
    exists added,
      final_edits = (all_edits ++ added)%list
      /\ Forall (fun e => e_phase e <> None /\ e_phase_name e <> None
                          /\ e_confidence e <> None) added.
Proof.
  induction phases as [| phase phases IH]; intros i current all_edits final_text final_edits.
  - intros [= <- <-]. exists []. split; [now rewrite app_nil_r | constructor].
  - cbn [run_phases]. destruct (correct phase current) as [result | e |]; [| apply IH | discriminate].
    intros H. apply IH in H. destruct H as [added [-> Hadded]].
    eexists. split; [now rewrite <- app_assoc |].
    apply Forall_app. split; [| exact Hadded].
    apply Forall_forall. intros e He. apply in_map_iff in He.
    destruct He as [e0 [<- _]]. unfold set_defaults. cbn.
    destruct (e_phase e0), (e_phase_name e0), (e_confidence e0); repeat split; discriminate.
Qed.

(** X1: [run] never lets an exception out, whatever the stages raise, and
    it returns a trace whenever every stage returns or raises. *)
Theorem run_always_returns :
  forall (phases : list Phase) (clock : Clock) (text : string),
    (forall e, run phases clock text <> Raise e)
    /\ ((forall p s, In p phases -> correct p s <> OutOfFuel) ->
        exists trace, run phases clock text = Ok trace).
Proof.
  intros phases clock text. unfold run.
  destruct (String.eqb (strip text) ""); [split; [discriminate | eauto] |].
  split.
  - intros e. pose proof (run_phases_never_raises phases 6 (strip text) [] e) as Hn.
    destruct (run_phases phases 6 (strip text) []) as [[current all_edits] | e' |];
      cbn [bind]; [discriminate | | discriminate].
    intros [= ->]. now apply Hn.
  - intros Hfuel.
    destruct (run_phases_returns phases Hfuel 6 (strip text) [])
      as [final_text [final_edits ->]].
    cbn [bind]. eauto.
Qed.

Lemma run_always_returns_witness :
  exists trace,
    run [Fixtures.crashing_phase; Samples.bare_phase; Fixtures.crashing_phase]
        Fixtures.clock0 " Hello " = Ok trace.
Proof.
  apply (proj2 (run_always_returns
                  [Fixtures.crashing_phase; Samples.bare_phase; Fixtures.crashing_phase]
                  Fixtures.clock0 " Hello ")).
  intros p s Hin. simpl in Hin.
  destruct Hin as [<- | [<- | [<- | []]]]; discriminate.
Defined.

(** X2: in a returned trace every edit carries a phase number, a phase
    name and a confidence, and [total_fixed] counts the edits. *)
Theorem trace_edits_are_complete :
  forall (phases : list Phase) (clock : Clock) (text : string) (trace : Trace.t),
    run phases clock text = Ok trace ->
    Forall (fun e => e_phase e <> None /\ e_phase_name e <> None
                     /\ e_confidence e <> None) (Trace.edits trace)
    /\ Trace.total_fixed trace = List.length (Trace.edits trace).
Proof.
  intros phases clock text trace. unfold run.
  destruct (String.eqb (strip text) "").
  - intros [= <-]. split; [constructor | reflexivity].
  - destruct (run_phases phases 6 (strip text) []) as [[current all_edits] | e |] eqn:Hrun;
      cbn [bind]; [| discriminate | discriminate].
    intros [= <-]. cbn. split; [| reflexivity].
    apply run_phases_defaulted in Hrun. destruct Hrun as [added [-> Hadded]].
    exact Hadded.
Qed.

Lemma trace_edits_are_complete_witness :
  exists trace,
    run [Samples.bare_phase] Fixtures.clock0 "Hello" = Ok trace
    /\ Trace.edits trace
       = [{| e_phase := Some 6%Z; e_phase_name := Some "ConjunctionsCorrector";
             e_confidence := Some 0.95%float; e_fields := [] |}]
    /\ Forall (fun e => e_phase e <> None /\ e_phase_name e <> None
                        /\ e_confidence e <> None) (Trace.edits trace).
Proof.
  eexists. split; [vm_compute; reflexivity |]. split; [reflexivity |].
  apply (trace_edits_are_complete [Samples.bare_phase] Fixtures.clock0 "Hello").
  vm_compute. reflexivity.
Defined.

(** X3: when every stage raises, [run] returns the input without its
    surrounding whitespace, no edit, and confidence 1.0. *)
Theorem every_stage_failing_returns_input :
  forall (phases : list Phase) (clock : Clock) (text : string),
    strip text <> "" ->
    (forall p s, In p phases -> exists e, correct p s = Raise e) ->
    run phases clock text
    = Ok {| Trace.id := Some ("aiwave_" ++ now_id clock);
            Trace.input_text := Some text;
            Trace.corrected_text := strip text;
            Trace.total_fixed := 0;
            Trace.confidence_avg := 1%float;
            Trace.f1_score := Some 1%float;
            Trace.runtime_sec := Some (runtime clock);
            Trace.timestamp := Some (now_iso clock);
            Trace.edits := [] |}.
Proof.
  intros phases clock text Hne Hraise.
  assert (Hloop : forall i current, run_phases phases i current [] = Ok (current, [])).
  { induction phases as [| phase phases IH]; intros i current; [reflexivity |].
    cbn [run_phases].
    destruct (Hraise phase current (or_introl eq_refl)) as [e ->].
    apply IH. intros p s Hin. apply Hraise. now right. }
  unfold run. destruct (String.eqb_spec (strip text) ""); [contradiction |].
  rewrite Hloop. cbn [bind]. rewrite strip_idempotent. reflexivity.
Qed.

Lemma every_stage_failing_returns_input_witness :
  Trace.corrected_text
    match run [Fixtures.crashing_phase; Fixtures.crashing_phase] Fixtures.clock0
              "  The team win. " with
    | Ok trace => trace
    | _ => Trace.Make None None "" 0 0%float None None None []
    end
  = "The team win.".
Proof.
  rewrite (every_stage_failing_returns_input
             [Fixtures.crashing_phase; Fixtures.crashing_phase] Fixtures.clock0
             "  The team win. ").
  - vm_compute. reflexivity.
  - vm_compute. discriminate.
  - intros p s Hin. simpl in Hin.
    destruct Hin as [<- | [<- | []]]; eexists; reflexivity.
Defined.

(** X4: a text without surrounding whitespace that every stage returns
    unchanged and without an edit comes out of [run] unchanged, with no fix
    and confidence 1.0, whatever confidence the stages report. *)
Theorem unchanged_text_round_trip :
  forall (phases : list Phase) (clock : Clock) (text : string),
    text <> "" -> strip text = text ->
    (forall p, In p phases ->
       exists r, correct p text = Ok r /\ corrected_text r = Some text
                 /\ issues_found r = Some []) ->
    run phases clock text
    = Ok {| Trace.id := Some ("aiwave_" ++ now_id clock);
            Trace.input_text := Some text;
            Trace.corrected_text := text;
            Trace.total_fixed := 0;
            Trace.confidence_avg := 1%float;
            Trace.f1_score := Some 1%float;
            Trace.runtime_sec := Some (runtime clock);
            Trace.timestamp := Some (now_iso clock);
            Trace.edits := [] |}.
Proof.
  intros phases clock text Hne Hstrip Hsilent.
  assert (Hloop : forall i, run_phases phases i text [] = Ok (text, [])).
  { induction phases as [| phase phases IH]; intros i; [reflexivity |].
    cbn [run_phases].
    destruct (Hsilent phase (or_introl eq_refl)) as [r [-> [-> ->]]].
    cbn [map app]. apply IH. intros p Hin. apply Hsilent. now right. }
  unfold run. rewrite Hstrip.
  destruct (String.eqb_spec text ""); [contradiction |].
  rewrite Hloop. cbn [bind]. now rewrite Hstrip.
Qed.

Lemma unchanged_text_round_trip_witness :
  run Samples.home_phases Fixtures.clock0 "They go home."
  = Ok {| Trace.id := Some "aiwave_20250101_000000";
          Trace.input_text := Some "They go home.";
          Trace.corrected_text := "They go home.";
          Trace.total_fixed := 0;
          Trace.confidence_avg := 1%float;
          Trace.f1_score := Some 1%float;
          Trace.runtime_sec := Some 0%float;
          Trace.timestamp := Some "2025-01-01T00:00:00";
          Trace.edits := [] |}.
Proof.
  apply (unchanged_text_round_trip Samples.home_phases Fixtures.clock0 "They go home.").
  - discriminate.
  - vm_compute. reflexivity.
  - intros p Hin. unfold Samples.home_phases, phases in Hin. simpl in Hin.
    destruct Hin as [<- | [<- | [<- | [<- | [<- | []]]]]];
      eexists; (split; [vm_compute; reflexivity | split; reflexivity]).
Defined.

(** ** utils.py: [preprocess_text] *)

Lemma lstrip_len (s : string) : len (lstrip s) <= len s.
Proof.
  induction s as [| c s IH]; simpl; [lia |].
  destruct (char_isspace c); simpl; unfold len in *; lia.
Qed.

(** [\s*] with nothing after it runs over the leading whitespace. *)
Lemma star_ws_lstrip (fuel : nat) :
  forall st : Re.mstate,
    len (Re.rest st) <= fuel ->
    exists p,
      Re.star_iter (Re.rmatch false Re.ws) (fun st' => Some st') fuel st
      = Some (Re.MState p (lstrip (Re.rest st)) (Re.groups st)).
Proof.
  induction fuel as [| fuel IH]; intros [p s gs] Hlen; cbn [Re.rest Re.groups] in *.
  - destruct s; [| simpl in Hlen; lia]. exists p. reflexivity.
  - cbn [Re.star_iter Re.rmatch Re.ws Re.step1 Re.cls_match Re.rest Re.groups].
    unfold Re.step1, Re.cls_match. cbn [Re.rest Re.groups].
    destruct s as [| c s]; [exists p; reflexivity |].
    cbn [lstrip]. destruct (char_isspace c); [| exists p; reflexivity].
    replace (Nat.ltb (len s) (len (String c s))) with true
      by (symmetry; apply Nat.ltb_lt; simpl; unfold len; lia).
    destruct (IH (Re.MState (Some c) s gs)) as [p' Hp'];
      [cbn [Re.rest]; simpl in Hlen; unfold len in *; lia |].
    cbn [Re.rest Re.groups] in Hp'.
    exists p'.
    match goal with
    | |- context [Re.star_iter ?m ?k ?f ?s0] =>
        replace (Re.star_iter m k f s0)
          with (Some (Re.MState p' (lstrip s) gs)) by (symmetry; exact Hp')
    end.
    reflexivity.
Qed.

(** One attempt of [\s+]: it fails before a character that is not
    whitespace, and takes the whole run otherwise. *)
Lemma match_here_ws_plus (p : option ascii) (s : string) :
  Re.match_here false (Re.Plus Re.ws) p s
  = match s with
    | EmptyString => None
    | String c s' =>
        if char_isspace c
        then Some (take (len s - len (lstrip s')) s, [], lstrip s')
        else None
    end.
Proof.
  unfold Re.match_here, Re.Plus.
  cbn [Re.rmatch Re.ws Re.step1 Re.cls_match Re.rest Re.groups].
  unfold Re.step1, Re.cls_match. cbn [Re.rest Re.groups].
  destruct s as [| c s']; [reflexivity |].
  destruct (char_isspace c); [| reflexivity].
  destruct (star_ws_lstrip (S (len s')) (Re.MState (Some c) s' []))
    as [p' Hp']; [cbn [Re.rest]; lia |].
  cbn [Re.rest Re.groups] in Hp'.
  match goal with
  | |- context [Re.star_iter ?m ?k ?f ?s0] =>
      replace (Re.star_iter m k f s0)
        with (Some (Re.MState p' (lstrip s') [])) by (symmetry; exact Hp')
  end.
  reflexivity.
Qed.

Lemma squeeze_in_run (s : string) :
  Reference.squeeze true s = Reference.squeeze false (lstrip s).
Proof.
  induction s as [| c s IH]; [reflexivity |].
  cbn [Reference.squeeze lstrip].
  destruct (char_isspace c) eqn:Hc; [exact IH |].
  cbn [Reference.squeeze]. now rewrite Hc.
Qed.

Lemma sub_ws_squeeze (fuel : nat) :
  forall (p : option ascii) (s : string),
    len s < fuel ->
    Re.sub_from false fuel (Re.Plus Re.ws) (fun _ => " ") p s
    = Reference.squeeze false s.
Proof.
  induction fuel as [| fuel IH]; intros p s Hlen; [lia |].
  cbn [Re.sub_from]. rewrite match_here_ws_plus.
  destruct s as [| c s']; [reflexivity |].
  simpl in Hlen. cbn [Reference.squeeze].
  destruct (char_isspace c).
  - pose proof (lstrip_len s') as Hl. unfold len in *.
    replace (String.length (String c s') - String.length (lstrip s'))
      with (S (String.length s' - String.length (lstrip s')))
      by (cbn [String.length]; lia).
    cbn [take substring]. rewrite IH by (clear - Hlen Hl; lia).
    now rewrite squeeze_in_run.
  - rewrite IH by (clear - Hlen; unfold len in *; lia). reflexivity.
Qed.

(** X5: [preprocess_text] removes the surrounding whitespace and replaces
    every run of whitespace inside the text by one space. *)
Theorem preprocess_text_squeezes :
  forall text : string,
    Utils.preprocess_text text = Reference.squeeze false (strip text).
Proof.
  intros text. unfold Utils.preprocess_text, Re.sub.
  apply sub_ws_squeeze. lia.
Qed.

(** A text [starts_clean] when it does not begin with whitespace and
    [ends_clean] when it does not end with whitespace. *)
Lemma rstrip_ends_clean (s : string) :
  match last_char (rstrip s) with
  | Some c => char_isspace c = false
  | None => True
  end.
Proof.
  induction s as [| a s IH]; [exact I |].
  cbn [rstrip]. destruct (rstrip s) as [| d r].
  - destruct (char_isspace a) eqn:Ha; [exact I | exact Ha].
  - exact IH.
Qed.

Lemma rstrip_fixed (s : string) :
  match last_char s with
  | Some c => char_isspace c = false
  | None => True
  end ->
  rstrip s = s.
Proof.
  induction s as [| a s IH]; [reflexivity |].
  destruct s as [| d s'].
  - cbn. intros ->. reflexivity.
  - intros H. specialize (IH H). cbn [rstrip] in *. rewrite IH. reflexivity.
Qed.

Lemma strip_fixed (s : string) :
  match s with
  | String c _ => char_isspace c = false
  | EmptyString => True
  end ->
  match last_char s with
  | Some c => char_isspace c = false
  | None => True
  end ->
  strip s = s.
Proof.
  intros Hhead Hlast. unfold strip.
  replace (lstrip s) with s; [now apply rstrip_fixed |].
  destruct s as [| c s]; [reflexivity |]. cbn [lstrip]. now rewrite Hhead.
Qed.

(** What [strip] returns neither begins nor ends with whitespace. *)
Lemma strip_clean (t : string) :
  match strip t with
  | String c _ => char_isspace c = false
  | EmptyString => True
  end
  /\ match last_char (strip t) with
     | Some c => char_isspace c = false
     | None => True
     end.
Proof.
  unfold strip. split; [| apply rstrip_ends_clean].
  pose proof (lstrip_head t) as Hhead.
  destruct (lstrip t) as [| c u]; [exact I |].
  cbn [rstrip]. destruct (rstrip u); [| exact Hhead].
  now rewrite Hhead.
Qed.

Lemma last_char_cons (x c : ascii) (t : string) :
  last_char t = Some c -> last_char (String x t) = Some c.
Proof. destruct t; [discriminate | trivial]. Qed.

Lemma squeeze_last (s : string) :
  forall (b : bool) (c : ascii),
    last_char s = Some c -> char_isspace c = false ->
    last_char (Reference.squeeze b s) = Some c.
Proof.
  induction s as [| a s IH]; intros b c Hlast Hc; [discriminate |].
  destruct s as [| d s'].
  - injection Hlast as ->. cbn. now rewrite Hc.
  - assert (Hlast' : last_char (String d s') = Some c) by exact Hlast.
    remember (String d s') as t eqn:Ht in *. clear Ht Hlast.
    cbn [Reference.squeeze].
    destruct (char_isspace a); [destruct b |];
      try apply last_char_cons; now apply IH.
Qed.

Lemma squeeze_clean (s : string) :
  match s with
  | String c _ => char_isspace c = false
  | EmptyString => True
  end ->
  match last_char s with
  | Some c => char_isspace c = false
  | None => True
  end ->
  strip (Reference.squeeze false s) = Reference.squeeze false s.
Proof.
  intros Hhead Hlast. apply strip_fixed.
  - destruct s as [| c s]; [exact I |]. cbn [Reference.squeeze]. now rewrite Hhead.
  - destruct (last_char s) as [c |] eqn:Hl.
    + now rewrite (squeeze_last s false c Hl Hlast).
    + destruct s as [| a [| d s']]; [exact I | discriminate |].
      exfalso. clear - Hl. revert a d Hl.
      induction s' as [| e s' IH]; intros a d Hl; [discriminate |].
      exact (IH d e Hl).
Qed.

Lemma space_is_space (c : ascii) : char_isspace c = false -> Ascii.eqb " " c = false.
Proof.
  intros Hc. destruct (Ascii.eqb_spec " " c) as [<- |]; [discriminate | reflexivity].
Qed.

Lemma squeeze_run_head (s : string) :
  startswith (Reference.squeeze true s) " " = false.
Proof.
  induction s as [| c s IH]; [reflexivity |].
  cbn [Reference.squeeze]. destruct (char_isspace c) eqn:Hc; [exact IH |].
  cbn [startswith]. now rewrite (space_is_space c Hc).
Qed.

Lemma squeeze_single_spaced (s : string) :
  forall b : bool, contains (Reference.squeeze b s) "  " = false.
Proof.
  induction s as [| c s IH]; intros b; [reflexivity |].
  cbn [Reference.squeeze]. destruct (char_isspace c) eqn:Hc.
  - destruct b; [apply IH |].
    cbn [contains startswith]. rewrite IH, squeeze_run_head.
    now rewrite andb_false_r.
  - cbn [contains startswith]. rewrite IH, (space_is_space c Hc). reflexivity.
Qed.

Lemma squeeze_only_spaces (s : string) :
  forall b : bool, Reference.only_spaces (Reference.squeeze b s) = true.
Proof.
  induction s as [| c s IH]; intros b; [reflexivity |].
  cbn [Reference.squeeze]. destruct (char_isspace c) eqn:Hc.
  - destruct b; [apply IH |]. cbn [Reference.only_spaces]. now rewrite IH.
  - cbn [Reference.only_spaces]. now rewrite Hc, IH.
Qed.

(** A single-spaced text that does not end with whitespace is left as it
    is. *)
Lemma squeeze_fixed (s : string) :
  contains s "  " = false -> Reference.only_spaces s = true ->
  match last_char s with
  | Some c => char_isspace c = false
  | None => True
  end ->
  Reference.squeeze false s = s
  /\ (match s with
      | String c _ => char_isspace c = false
      | EmptyString => True
      end -> Reference.squeeze true s = s).
Proof.
  induction s as [| c s IH]; intros Hdouble Honly Hlast; [split; reflexivity |].
  cbn [contains] in Hdouble. apply orb_false_iff in Hdouble.
  destruct Hdouble as [Hstart Hdouble].
  cbn [Reference.only_spaces] in Honly. apply andb_prop in Honly.
  destruct Honly as [Hc Honly].
  assert (Hlast' : match last_char s with
                   | Some c => char_isspace c = false
                   | None => True
                   end).
  { destruct s as [| d s']; [exact I | exact Hlast]. }
  destruct (IH Hdouble Honly Hlast') as [IHf IHt].
  cbn [Reference.squeeze]. destruct (char_isspace c) eqn:Hsp.
  - split; [| discriminate].
    cbn [negb orb] in Hc. apply Ascii.eqb_eq in Hc. subst c.
    rewrite IHt; [reflexivity |].
    destruct s as [| d s']; [cbn in Hlast; discriminate |].
    cbn [startswith] in Hstart. cbn [Reference.only_spaces] in Honly.
    destruct (char_isspace d); [| reflexivity].
    apply andb_prop in Honly. destruct Honly as [Hd _].
    cbn [negb orb] in Hd. apply Ascii.eqb_eq in Hd. subst d.
    destruct s'; vm_compute in Hstart; discriminate.
  - rewrite IHf. split; reflexivity.
Qed.

(** X6: what [preprocess_text] returns has no surrounding whitespace, no
    two spaces in a row and no whitespace character but the space; it is
    empty exactly on a blank text, and [preprocess_text] changes nothing when it
    is applied again. *)
Theorem preprocess_text_is_tidy :
  forall text : string,
    let r := Utils.preprocess_text text in
    strip r = r
    /\ contains r "  " = false
    /\ Reference.only_spaces r = true
    /\ (r = "" <-> strip text = "")
    /\ Utils.preprocess_text r = r.
Proof.
  intros text. cbv zeta.
  rewrite (sub_ws_squeeze _ None (strip text) (Nat.lt_succ_diag_r _) :
             Utils.preprocess_text text = Reference.squeeze false (strip text)).
  destruct (strip_clean text) as [Hhead Hlast].
  pose proof (squeeze_clean _ Hhead Hlast) as Hstrip.
  split; [exact Hstrip |].
  split; [apply squeeze_single_spaced |].
  split; [apply squeeze_only_spaces |].
  split.
  - destruct (strip text) as [| c s]; [tauto |].
    cbn [Reference.squeeze]. destruct (char_isspace c); split; discriminate.
  - rewrite (sub_ws_squeeze _ None (strip (Reference.squeeze false (strip text)))
               (Nat.lt_succ_diag_r _) :
               Utils.preprocess_text (Reference.squeeze false (strip text)) = _).
    rewrite Hstrip.
    apply squeeze_fixed.
    + apply squeeze_single_spaced.
    + apply squeeze_only_spaces.
    + rewrite <- Hstrip. apply strip_clean.
Qed.

(** X7: a text without surrounding whitespace, without two spaces in a row
    and with no whitespace character but the space is returned unchanged
    by [preprocess_text]. *)
Theorem preprocess_text_keeps_tidy_text :
  forall s : string,
    strip s = s -> contains s "  " = false -> Reference.only_spaces s = true ->
    Utils.preprocess_text s = s.
Proof.
  intros s Hstrip Hdouble Honly.
  rewrite (sub_ws_squeeze _ None (strip s) (Nat.lt_succ_diag_r _) :
             Utils.preprocess_text s = Reference.squeeze false (strip s)).
  rewrite Hstrip. apply squeeze_fixed; try assumption.
  rewrite <- Hstrip. apply strip_clean.
Qed.

Lemma preprocess_text_keeps_tidy_text_witness :
  Utils.preprocess_text "They go home." = "They go home.".
Proof.
  apply (preprocess_text_keeps_tidy_text "They go home."); reflexivity.
Defined.

(** ** Phase 6: conjugation and the rule engine *)

Lemma get_in_range (s : string) :
  forall n : nat, n < String.length s -> exists c, String.get n s = Some c.
Proof.
  induction s as [| a s IH]; intros n Hn; [simpl in Hn; lia |].
  destruct n as [| n]; [exists a; reflexivity |].
  simpl in Hn. cbn [String.get]. apply IH. lia.
Qed.

Lemma substring_skip (a b : string) :
  substring (String.length a) (String.length b) (a ++ b) = b.
Proof.
  induction a as [| c a IH]; [| exact IH].
  cbn. induction b as [| d b IHb]; [reflexivity |].
  cbn. now rewrite IHb.
Qed.

Lemma length_append (a b : string) :
  String.length (a ++ b) = String.length a + String.length b.
Proof. induction a as [| c a IH]; [reflexivity |]. cbn. now rewrite IH. Qed.

Lemma append_assoc (a b c : string) : ((a ++ b) ++ c = a ++ (b ++ c))%string.
Proof. induction a as [| x a IH]; [reflexivity |]. cbn. now rewrite IH. Qed.

Lemma endswith_app (a b : string) : endswith (a ++ b) b = true.
Proof.
  unfold endswith, len. rewrite length_append.
  replace (String.length a + String.length b - String.length b)
    with (String.length a) by lia.
  rewrite substring_skip, String.eqb_refl.
  replace (Nat.leb _ _) with true by (symmetry; apply Nat.leb_le; lia).
  reflexivity.
Qed.

Lemma assoc_In {V : Type} (k : string) (d : list (string * V)) (v : V) :
  assoc k d = Some v -> In (k, v) d.
Proof.
  induction d as [| [k' v'] d IH]; [discriminate |].
  cbn [assoc]. destruct (String.eqb_spec k k') as [-> | _].
  - intros [= ->]. now left.
  - intros H. right. now apply IH.
Qed.

(** X8: [_conjugate] raises on exactly one input, the one-letter lemma "y"
    (in either case) asked for in the singular, where [lemma[-2]] does not
    exist; on every other input it returns a form. *)
Theorem conjugate_raises_only_on_y :
  forall (lemma : string) (num : SubjectVerb.number),
    ((exists e, SubjectVerb._conjugate lemma num = Raise e)
     <-> lower lemma = "y" /\ num = SubjectVerb.singular)
    /\ ((exists form, SubjectVerb._conjugate lemma num = Ok form)
        <-> ~ (lower lemma = "y" /\ num = SubjectVerb.singular)).
Proof.
  intros lemma num. unfold SubjectVerb._conjugate.
  destruct (assoc (lower lemma) SubjectVerb.IRREGULAR) as [[sg pl] |] eqn:Hirr.
  { assert (Hy : lower lemma <> "y").
    { intros Heq. rewrite Heq in Hirr. discriminate. }
    split; split.
    - intros [e He]. discriminate.
    - intros [Heq _]. contradiction.
    - intros _ [Heq _]. contradiction.
    - intros _. eauto. }
  destruct num.
  2:{ split; split.
      - intros [e He]. discriminate.
      - intros [_ Hn]. discriminate.
      - intros _ [_ Hn]. discriminate.
      - intros _. eauto. }
  destruct (endswith (lower lemma) "y") eqn:Hend.
  - destruct (lower lemma) as [| a [| b rest]] eqn:Hl.
    + discriminate.
    + assert (Ha : a = "y"%char).
      { unfold endswith in Hend. cbn in Hend.
        destruct (Ascii.eqb_spec a "y") as [-> | _]; [reflexivity | discriminate]. }
      subst a. cbn. split; split.
      * intros _. split; reflexivity.
      * intros _. eauto.
      * intros [form Hform]. discriminate.
      * intros Hn. exfalso. apply Hn. split; reflexivity.
    + cbn [len String.length].
      destruct (get_in_range (String a (String b rest)) (String.length rest)) as [c Hc];
        [cbn; lia |].
      unfold index. rewrite Hc. cbn [bind].
      split; split.
      * intros [e He].
        destruct (negb _); [discriminate |].
        destruct (existsb _ _); discriminate.
      * intros [Heq _]. discriminate.
      * intros _ [Heq _]. discriminate.
      * intros _. destruct (negb _); [eauto |]. destruct (existsb _ _); eauto.
  - cbn [bind].
    assert (Hy : lower lemma <> "y").
    { intros Heq. rewrite Heq in Hend. discriminate. }
    split; split.
    + intros [e He]. destruct (existsb _ _); discriminate.
    + intros [Heq _]. contradiction.
    + intros _ [Heq _]. contradiction.
    + intros _. destruct (existsb _ _); eauto.
Qed.

(** X9: every singular form that [_conjugate] returns ends in "s". *)
Theorem conjugate_singular_ends_in_s :
  forall lemma form : string,
    SubjectVerb._conjugate lemma SubjectVerb.singular = Ok form ->
    endswith form "s" = true.
Proof.
  intros lemma form. unfold SubjectVerb._conjugate.
  destruct (assoc (lower lemma) SubjectVerb.IRREGULAR) as [[sg pl] |] eqn:Hirr.
  - intros [= <-]. apply assoc_In in Hirr. simpl in Hirr.
    repeat (destruct Hirr as [Hirr | Hirr]; [injection Hirr as _ <- _; reflexivity |]).
    contradiction.
  - destruct (if endswith (lower lemma) "y" then _ else _) as [y_rule | e |];
      cbn [bind]; [| discriminate | discriminate].
    destruct y_rule; [| destruct (existsb _ _)]; intros [= <-].
    + change "ies" with ("ie" ++ "s"). rewrite <- append_assoc. apply endswith_app.
    + change "es" with ("e" ++ "s"). rewrite <- append_assoc. apply endswith_app.
    + apply endswith_app.
Qed.

Lemma conjugate_singular_ends_in_s_witness :
  endswith "watches" "s" = true.
Proof.
  apply (conjugate_singular_ends_in_s "Watch" "watches"). reflexivity.
Defined.

(** The scan of a document in which no verb is to be replaced ends after
    the last token and changes nothing. *)
Lemma rule_engine_quiet (nlp : Annotator) (doc : Doc) (tokens : list string)
  (issues : list Edit) :
  Forall (fun token => SubjectVerb.target_of doc token = Ok None) (doc_tokens doc) ->
  forall (fuel i : nat),
    List.length (doc_tokens doc) - i < fuel ->
    SubjectVerb.rule_engine nlp fuel doc tokens i issues = Ok (tokens, issues).
Proof.
  intros Hquiet. induction fuel as [| fuel IH]; intros i Hfuel; [lia |].
  cbn [SubjectVerb.rule_engine].
  destruct (nth_error (doc_tokens doc) i) as [token |] eqn:Hnth; [| reflexivity].
  rewrite Forall_forall in Hquiet.
  rewrite (Hquiet token (nth_error_In _ _ Hnth)).
  apply IH.
  assert (i < List.length (doc_tokens doc)) by (apply nth_error_Some; congruence).
  lia.
Qed.

(** X10: when the checker leaves the normalized text alone (or fails) and
    the rule engine finds no verb to replace in it, the stage returns the
    tokens of the document joined and cleaned up, no issue and confidence
    1.0, after one scan of the document. *)
Theorem agreeing_text_is_left_alone :
  forall (nlp : Annotator) (tool : ToolCorrect) (fuel : nat) (text : string),
    let clean := strip (Utils.preprocess_text text) in
    clean <> "" ->
    tool clean = Some clean \/ tool clean = None ->
    Forall (fun token => SubjectVerb.target_of (nlp clean) token = Ok None)
           (doc_tokens (nlp clean)) ->
    List.length (doc_tokens (nlp clean)) < fuel ->
    SubjectVerb.correct nlp tool fuel text
    = Ok {| corrected_text :=
              Some (strip (detach_space
                             (join "" (map Token.text_with_ws
                                           (doc_tokens (nlp clean))))));
            issues_found := Some [];
            confidence := Some 1%float;
            dominant_tense := None |}.
Proof.
  intros nlp tool fuel text clean Hne Htool Hquiet Hfuel.
  unfold SubjectVerb.correct. fold clean.
  destruct (String.eqb_spec clean ""); [contradiction |].
  assert (Hlt : match tool clean with
                | Some lt_fixed =>
                    if negb (String.eqb lt_fixed clean)
                    then (lt_fixed, [SubjectVerb.lt_edit clean lt_fixed])
                    else (clean, [])
                | None => (clean, [])
                end = (clean, [])).
  { destruct Htool as [-> | ->]; [now rewrite String.eqb_refl | reflexivity]. }
  rewrite Hlt.
  rewrite (rule_engine_quiet nlp (nlp clean) _ [] Hquiet fuel 0) by lia.
  reflexivity.
Qed.

Lemma agreeing_text_is_left_alone_witness :
  SubjectVerb.correct Samples.home_nlp Fixtures.quiet_correct 5 "  They   go home. "
  = Ok {| corrected_text := Some "They go home."; issues_found := Some [];
          confidence := Some 1%float; dominant_tense := None |}.
Proof.
  pose proof (agreeing_text_is_left_alone Samples.home_nlp Fixtures.quiet_correct 5
                "  They   go home. ") as H.
  cbv zeta in H.
  assert (H1 : strip (Utils.preprocess_text "  They   go home. ") <> "")
    by (vm_compute; discriminate).
  assert (H2 : Fixtures.quiet_correct (strip (Utils.preprocess_text "  They   go home. "))
               = Some (strip (Utils.preprocess_text "  They   go home. ")))
    by reflexivity.
  assert (H3 : Forall (fun token =>
                         SubjectVerb.target_of
                           (Samples.home_nlp
                              (strip (Utils.preprocess_text "  They   go home. ")))
                           token = Ok None)
                      (doc_tokens
                         (Samples.home_nlp
                            (strip (Utils.preprocess_text "  They   go home. ")))))
    by (match goal with
        | |- Forall ?P ?l => let l' := eval vm_compute in l in change (Forall P l')
        end;
        repeat (constructor; [vm_compute; reflexivity |]); constructor).
  assert (H4 : List.length
                 (doc_tokens
                    (Samples.home_nlp
                       (strip (Utils.preprocess_text "  They   go home. ")))) < 5)
    by (vm_compute; lia).
  specialize (H H1 (or_introl H2) H3 H4).
  vm_compute in H. vm_compute. exact H.
Defined.

(** The edits of the rule engine are appended to those it starts with, and
    each has phase 6 and confidence 0.97. *)
Lemma rule_engine_issues (nlp : Annotator) (fuel : nat) :
  forall (doc : Doc) (tokens : list string) (i : nat) (issues : list Edit)
         (tokens' : list string) (issues' : list Edit),
    SubjectVerb.rule_engine nlp fuel doc tokens i issues = Ok (tokens', issues') ->
    exists added,
      issues' = (issues ++ added)%list
      /\ Forall (fun e => e_phase e = Some 6%Z /\ e_confidence e = Some 0.97%float)
                added.
Proof.
  induction fuel as [| fuel IH]; intros doc tokens i issues tokens' issues';
    [discriminate |].
  cbn [SubjectVerb.rule_engine].
  destruct (nth_error (doc_tokens doc) i) as [token |].
  - destruct (SubjectVerb.target_of doc token) as [[[target_form subj] |] | e |];
      [| apply IH | discriminate | discriminate].
    intros H. apply IH in H. destruct H as [added [-> Hadded]].
    eexists. split; [now rewrite <- app_assoc |].
    constructor; [split; reflexivity | exact Hadded].
  - intros [= <- <-]. exists []. split; [now rewrite app_nil_r | constructor].
Qed.

(** X11: when the subject-verb stage returns, its text has no surrounding
    whitespace, every issue has phase 6, the issue of the checker (confidence
    0.98) comes first if there is one, the issues of the rule engine
    (confidence 0.97) follow, and the confidence of the stage is 1.0 without
    an issue and 0.98 with one. *)
Theorem subject_verb_result_shape :
  forall (nlp : Annotator) (tool : ToolCorrect) (fuel : nat) (text : string)
         (r : StageResult),
    SubjectVerb.correct nlp tool fuel text = Ok r ->
    exists (result : string) (checked rewritten : list Edit),
      corrected_text r = Some result /\ strip result = result
      /\ issues_found r = Some (checked ++ rewritten)%list
      /\ List.length checked <= 1
      /\ Forall (fun e => e_phase e = Some 6%Z /\ e_confidence e = Some 0.98%float)
                checked
      /\ Forall (fun e => e_phase e = Some 6%Z /\ e_confidence e = Some 0.97%float)
                rewritten
      /\ confidence r
         = Some (match (checked ++ rewritten)%list with
                 | [] => 1%float
                 | _ => 0.98%float
                 end).
Proof.
  intros nlp tool fuel text r. unfold SubjectVerb.correct.
  destruct (String.eqb_spec (strip (Utils.preprocess_text text)) "") as [Hb | Hb].
  - intros [= <-]. exists (strip (Utils.preprocess_text text)), [], [].
    cbn [corrected_text issues_found confidence app List.length].
    rewrite strip_idempotent. repeat split; auto.
  - destruct (match tool _ with Some _ => _ | None => _ end)
      as [text' checked] eqn:Hlt.
    assert (Hchecked : List.length checked <= 1
                       /\ Forall (fun e => e_phase e = Some 6%Z
                                           /\ e_confidence e = Some 0.98%float)
                                 checked).
    { destruct (tool _) as [lt_fixed |]; [destruct (negb _) |];
        injection Hlt as _ <-; cbn [List.length]; split; auto;
        repeat constructor. }
    destruct Hchecked as [Hlen Hchecked].
    destruct (SubjectVerb.rule_engine _ _ _ _ _ _) as [[tokens issues] | e |] eqn:Hrun;
      cbn [bind]; [| discriminate | discriminate].
    intros [= <-].
    apply rule_engine_issues in Hrun. destruct Hrun as [rewritten [-> Hrewritten]].
    exists (strip (detach_space (join "" tokens))), checked, rewritten.
    cbn [corrected_text issues_found confidence].
    rewrite strip_idempotent. repeat split; auto.
Qed.

Lemma subject_verb_result_shape_witness :
  exists (result : string) (checked rewritten : list Edit),
    Some "THE DOGS Bark." = Some result /\ strip result = result
    /\ Some [SubjectVerb.rule_edit "BARKS" "Bark" "DOGS"] = Some (checked ++ rewritten)%list
    /\ List.length checked <= 1
    /\ Forall (fun e => e_phase e = Some 6%Z /\ e_confidence e = Some 0.98%float)
              checked
    /\ Forall (fun e => e_phase e = Some 6%Z /\ e_confidence e = Some 0.97%float)
              rewritten
    /\ Some 0.98%float
       = Some (match (checked ++ rewritten)%list with
               | [] => 1%float
               | _ => 0.98%float
               end).
Proof.
  apply (subject_verb_result_shape Fixtures.caps_nlp Fixtures.quiet_correct 20
           "THE DOGS BARKS."
           {| corrected_text := Some "THE DOGS Bark.";
              issues_found := Some [SubjectVerb.rule_edit "BARKS" "Bark" "DOGS"];
              confidence := Some 0.98%float; dominant_tense := None |}).
  vm_compute. reflexivity.
Defined.

(** ** Phase 7: the dominant tense and the edits of the stage *)

Lemma fold_left_invariant {A B : Type} (Q : A -> Prop) (f : A -> B -> A) (l : list B) :
  (forall acc x, In x l -> Q acc -> Q (f acc x)) ->
  forall acc, Q acc -> Q (fold_left f l acc).
Proof.
  induction l as [| x l IH]; intros Hstep acc Hacc; [exact Hacc |].
  cbn [fold_left]. apply IH.
  - intros acc' y Hin. apply Hstep. now right.
  - apply Hstep; [now left | exact Hacc].
Qed.

Lemma dominant_tense_clues (nlp : Annotator) (text : string) :
  let tense := Tense._detect_dominant_tense nlp text in
  let tokens := doc_tokens (nlp (lower text)) in
  In tense ["past"; "present"; "future"]
  /\ (tense = "future" ->
      contains text "tomorrow" = true
      \/ Exists (fun tok => mem (Token.text tok) Tense.future_clues = true
                            \/ lower (Token.text tok) = "will") tokens)
  /\ (tense = "present" ->
      contains text "now" = true \/ contains text "today" = true
      \/ Exists (fun tok => mem (Token.tag_ tok) ["VBZ"; "VBP"] = true) tokens).
Proof.
  cbv zeta. unfold Tense._detect_dominant_tense.
  match goal with
  | |- context [fold_left ?f ?l ?a] => set (vote := f); set (tokens := l)
  end.
  assert (Hvotes :
            (snd (fold_left vote tokens (0, 0, 0)) <> 0 ->
             Exists (fun tok => mem (Token.text tok) Tense.future_clues = true
                                \/ lower (Token.text tok) = "will") tokens)
            /\ (snd (fst (fold_left vote tokens (0, 0, 0))) <> 0 ->
                Exists (fun tok => mem (Token.tag_ tok) ["VBZ"; "VBP"] = true) tokens)).
  { assert (Hgen : forall toks acc,
               (snd (fold_left vote toks acc) <> snd acc ->
                Exists (fun tok => mem (Token.text tok) Tense.future_clues = true
                                   \/ lower (Token.text tok) = "will") toks)
               /\ (snd (fst (fold_left vote toks acc)) <> snd (fst acc) ->
                   Exists (fun tok => mem (Token.tag_ tok) ["VBZ"; "VBP"] = true) toks)).
    { induction toks as [| tok toks IH]; intros [[past present] future].
      - cbn. split; intros H; contradiction.
      - cbn [fold_left]. destruct (IH (vote (past, present, future) tok)) as [IHf IHp].
        unfold vote in IHf, IHp |- *. fold vote in IHf, IHp |- *.
        destruct (mem (Token.text tok) Tense.past_clues
                  || mem (Token.tag_ tok) ["VBD"; "VBN"])%bool.
        { split; intros H; apply Exists_cons_tl; auto. }
        destruct (mem (Token.text tok) Tense.future_clues) eqn:Hclue.
        { split; intros H.
          - apply Exists_cons_hd. now left.
          - apply Exists_cons_tl; auto. }
        destruct (String.eqb_spec (lower (Token.text tok)) "will") as [Hwill | _].
        { split; intros H.
          - apply Exists_cons_hd. now right.
          - apply Exists_cons_tl; auto. }
        cbn [orb].
        destruct (mem (Token.tag_ tok) ["VBZ"; "VBP"]) eqn:Htag.
        { split; intros H.
          - apply Exists_cons_tl; auto.
          - now apply Exists_cons_hd. }
        split; intros H; apply Exists_cons_tl; auto. }
    exact (Hgen tokens (0, 0, 0)). }
  destruct Hvotes as [Hfuture Hpresent].
  destruct (fold_left vote tokens (0, 0, 0)) as [[past present] future].
  cbn [fst snd] in Hfuture, Hpresent.
  destruct (contains text "yesterday"), (contains text "tomorrow") eqn:Htomorrow,
    (contains text "now") eqn:Hnow, (contains text "today") eqn:Htoday;
    cbn [orb];
    repeat match goal with
           | |- context [Nat.ltb ?a ?b] =>
               let H := fresh "Hlt" in destruct (Nat.ltb_spec a b) as [H | H]
           end;
    (split; [simpl; tauto |]);
    (split; intros Htense; try discriminate Htense; auto);
    try (right; right; apply Hpresent; lia);
    try (right; apply Hfuture; lia).
Qed.

(** X12: the dominant tense is "past", "present" or "future"; it is
    "future" only if the text contains "tomorrow" or a token of the
    lower-cased text is a future clue, and "present" only if the text
    contains "now" or "today" or a token is tagged VBZ or VBP; so a text
    without any of these clues counts as past. *)
Theorem dominant_tense_needs_a_clue :
  forall (nlp : Annotator) (text : string),
    let tense := Tense._detect_dominant_tense nlp text in
    let tokens := doc_tokens (nlp (lower text)) in
    In tense ["past"; "present"; "future"]
    /\ (tense = "future" ->
        contains text "tomorrow" = true
        \/ Exists (fun tok => mem (Token.text tok) Tense.future_clues = true
                              \/ lower (Token.text tok) = "will") tokens)
    /\ (tense = "present" ->
        contains text "now" = true \/ contains text "today" = true
        \/ Exists (fun tok => mem (Token.tag_ tok) ["VBZ"; "VBP"] = true) tokens)
    /\ (contains text "tomorrow" = false ->
        contains text "now" = false -> contains text "today" = false ->
        Forall (fun tok => mem (Token.text tok) Tense.future_clues = false
                           /\ lower (Token.text tok) <> "will"
                           /\ mem (Token.tag_ tok) ["VBZ"; "VBP"] = false) tokens ->
        tense = "past").
Proof.
  intros nlp text. cbv zeta.
  destruct (dominant_tense_clues nlp text) as [Hrange [Hfuture Hpresent]].
  repeat split; try assumption.
  intros Htomorrow Hnow Htoday Hquiet. rewrite Forall_forall in Hquiet.
  destruct Hrange as [Hp | [Hp | [Hp | []]]]; symmetry in Hp; [exact Hp | |].
  - destruct (Hpresent Hp) as [H | [H | H]]; [congruence | congruence |].
    apply Exists_exists in H. destruct H as [tok [Hin Htag]].
    destruct (Hquiet tok Hin) as [_ [_ Hno]]. congruence.
  - destruct (Hfuture Hp) as [H | H]; [congruence |].
    apply Exists_exists in H. destruct H as [tok [Hin [Hclue | Hwill]]];
      destruct (Hquiet tok Hin) as [Hno [Hnw _]]; [congruence | contradiction].
Qed.

Lemma apply_rules_edits (nlp : Annotator) (s tense : string) :
  Forall Reference.tense_edit (snd (Tense._apply_rules nlp s tense)).
Proof.
  unfold Tense._apply_rules.
  destruct (String.eqb tense "future");
    [repeat constructor | destruct (String.eqb tense "past");
                          [| destruct (String.eqb tense "present"); [| constructor]]].
  - apply (fold_left_invariant (fun acc => Forall Reference.tense_edit (snd acc)));
      [| constructor].
    intros [s' issues] token _ Hacc. cbn [snd] in *.
    destruct (assoc _ Tense.irregular) as [past |]; [| exact Hacc].
    destruct (_ && _)%bool; [| exact Hacc].
    cbn [snd]. apply Forall_app. split; [exact Hacc | repeat constructor].
  - apply (fold_left_invariant (fun acc => Forall Reference.tense_edit (snd acc)));
      [| constructor].
    intros [s' issues] [base past] _ Hacc. cbn [snd] in *.
    destruct (Re.search _ _ _); [| exact Hacc].
    cbn [snd]. apply Forall_app. split; [exact Hacc | repeat constructor].
Qed.

Lemma fix_sentence_edits nlp tool_check tool_correct gf (sent tense : string) :
  Forall Reference.tense_edit
         (snd (Tense._fix_sentence nlp tool_check tool_correct gf sent tense)).
Proof.
  unfold Tense._fix_sentence.
  pose proof (apply_rules_edits nlp sent tense) as Hrules.
  destruct (Tense._apply_rules nlp sent tense) as [s issues]. cbn [snd] in Hrules.
  assert (Hgf : forall s' issues',
             match gf with
             | Some gf_correct =>
                 match gf_correct s with
                 | Some (corrected :: _) =>
                     if negb (String.eqb corrected s)
                     then (corrected,
                           (issues ++ [edit (Some 7%Z) None
                                         [("type", VStr "GF");
                                          ("message",
                                           VStr "Deep tense recheck by Gramformer")]])%list)
                     else (s, issues)
                 | _ => (s, issues)
                 end
             | None => (s, issues)
             end = (s', issues') -> Forall Reference.tense_edit issues').
  { intros s' issues'.
    destruct gf as [gf_correct |]; [| intros [= _ <-]; exact Hrules].
    destruct (gf_correct s) as [[| corrected others] |];
      try (intros [= _ <-]; exact Hrules).
    destruct (negb _); intros [= _ <-]; [| exact Hrules].
    apply Forall_app. split; [exact Hrules | repeat constructor]. }
  destruct (match gf with Some _ => _ | None => _ end) as [s' issues'].
  specialize (Hgf s' issues' eq_refl).
  unfold Tense._apply_lt.
  destruct (tool_check s') as [[| n] |]; cbn [snd];
    try (rewrite app_nil_r; exact Hgf).
  destruct (tool_correct s') as [corrected |]; [destruct (negb _) |]; cbn [snd];
    try (rewrite app_nil_r; exact Hgf).
  apply Forall_app. split; [exact Hgf | repeat constructor].
Qed.

(** X13: every edit of the tense stage has phase 7 and no confidence of
    its own, so in the loop of [run] each one gets confidence 0.95 and the
    name of the phase.  (The token texts that the past branch splices into
    a pattern hold no metacharacter.) *)
Theorem tense_edits_get_default_confidence :
  forall (nlp model : Annotator) (tool_check : ToolCheck) (tool_correct : ToolCorrect)
         (gf : Gramformer) (text : string) (i : Z) (phase_name : string),
    (forall sent token,
        In sent (Utils.get_sentences model (Utils.preprocess_text text)) ->
        In token (doc_tokens (nlp sent)) ->
        assoc (lower (Token.lemma_ token)) Tense.irregular <> None ->
        Re.is_literal (Token.text token) = true) ->
    exists issues,
      issues_found (Tense.correct nlp tool_check tool_correct gf model text) = Some issues
      /\ Forall (fun e => e_phase e = Some 7%Z /\ e_confidence e = None) issues
      /\ Forall (fun e => e_phase e = Some 7%Z /\ e_confidence e = Some 0.95%float
                          /\ e_phase_name e = Some phase_name)
                (map (set_defaults i phase_name) issues).
Proof.
  intros nlp model tool_check tool_correct gf text i phase_name _.
  assert (Hissues : exists issues,
             issues_found (Tense.correct nlp tool_check tool_correct gf model text)
             = Some issues /\ Forall Reference.tense_edit issues).
  { unfold Tense.correct.
    destruct (String.eqb _ ""); [exists []; split; [reflexivity | constructor] |].
    destruct (fold_left _ _ _) as [sentences issues] eqn:Hfold.
    exists issues. split; [reflexivity |].
    change issues with (snd (sentences, issues)). rewrite <- Hfold.
    apply (fold_left_invariant (fun acc => Forall Reference.tense_edit (snd acc)));
      [| constructor].
    intros [sentences' issues'] sent _ Hacc. cbn [fst snd] in *.
    pose proof (fix_sentence_edits nlp tool_check tool_correct gf sent
                  (Tense._detect_dominant_tense nlp (Utils.preprocess_text text)))
      as Hsent.
    destruct (Tense._fix_sentence _ _ _ _ _ _) as [fixed new_issues].
    cbn [snd] in *. apply Forall_app. split; assumption. }
  destruct Hissues as [issues [Hfound Hall]].
  exists issues. split; [exact Hfound |].
  split.
  - apply Forall_impl with (2 := Hall). intros e [Hp [Hc _]]. split; assumption.
  - apply Forall_map. apply Forall_impl with (2 := Hall).
    intros e [Hp [Hc Hn]]. unfold set_defaults. cbn. rewrite Hp, Hc, Hn.
    repeat split.
Qed.

Lemma tense_edits_get_default_confidence_witness :
  exists issues,
    issues_found (Tense.correct Fixtures.come_nlp Fixtures.quiet_check
                    Fixtures.quiet_correct None Fixtures.come_nlp
                    "They will come, eat and sleep tomorrow.")
    = Some issues
    /\ issues = [edit (Some 7%Z) None [("type", VStr "future_normalize")]]
    /\ Forall (fun e => e_phase e = Some 7%Z /\ e_confidence e = Some 0.95%float
                        /\ e_phase_name e = Some "TenseConsistencyCorrector")
              (map (set_defaults 7 "TenseConsistencyCorrector") issues).
Proof.
  destruct (tense_edits_get_default_confidence Fixtures.come_nlp Fixtures.come_nlp
              Fixtures.quiet_check Fixtures.quiet_correct None
              "They will come, eat and sleep tomorrow." 7%Z "TenseConsistencyCorrector")
    as [issues [Hissues [_ Hdefaults]]].
  - intros sent token Hsent Htoken Hirregular.
    vm_compute in Hsent. destruct Hsent as [<- | []].
    vm_compute in Htoken.
    repeat (destruct Htoken as [<- | Htoken];
            [first [reflexivity | exfalso; apply Hirregular; reflexivity] |]).
    contradiction.
  - exists issues. split; [exact Hissues |]. split; [| exact Hdefaults].
    vm_compute in Hissues. now injection Hissues as <-.
Defined.

(** ** utils.py: [get_sentences] *)

(** X14: [get_sentences] returns no empty sentence, each sentence without
    surrounding whitespace, in the order of the document and at most as
    many as the document has. *)
Theorem get_sentences_are_stripped :
  forall (spacy_model : Annotator) (text : string),
    Forall (fun s => s <> "" /\ strip s = s) (Utils.get_sentences spacy_model text)
    /\ List.length (Utils.get_sentences spacy_model text)
       <= List.length (sents (spacy_model text))
    /\ (Forall (fun s => strip s <> "") (sents (spacy_model text)) ->
        Utils.get_sentences spacy_model text = map strip (sents (spacy_model text))).
Proof.
  intros spacy_model text. unfold Utils.get_sentences.
  induction (sents (spacy_model text)) as [| s l [IHall [IHlen IHeq]]].
  - repeat split; [constructor | cbn; lia].
  - cbn [map filter].
    destruct (String.eqb_spec (strip s) "") as [Hs | Hs]; cbn [negb].
    + split; [exact IHall |]. split; [cbn; lia |].
      intros Hall. inversion Hall; contradiction.
    + split; [constructor; [split; [exact Hs | apply strip_idempotent] | exact IHall] |].
      split; [cbn; lia |].
      intros Hall. inversion Hall; subst. now rewrite IHeq.
Qed.

(** ** Phase 8: the antecedent and the replacement of a pronoun *)

(** Scanning down from [start - a]: what lies between the result and the
    start is no candidate. *)
Lemma first_candidate_scan (doc : Doc) (start : Z) (n : nat) :
  forall (a : nat) (j : Z) (t : Token.t),
    Pronoun.first_candidate doc (map (fun k => (start - Z.of_nat k)%Z) (seq a n))
    = Some (j, t) ->
    forall k tk, (j < k <= start - Z.of_nat a)%Z ->
                 nth_error (doc_tokens doc) (Z.to_nat k) = Some tk ->
                 Pronoun.candidate tk = false.
Proof.
  induction n as [| n IH]; intros a j t; [discriminate |].
  cbn [seq map Pronoun.first_candidate].
  destruct (nth_error (doc_tokens doc) (Z.to_nat (start - Z.of_nat a))) as [ta |] eqn:Ha.
  - destruct (Pronoun.candidate ta) eqn:Hc.
    + intros [= <- <-] k tk Hk. lia.
    + intros H k tk Hk Hnth.
      destruct (Z.eq_dec k (start - Z.of_nat a)) as [-> | Hne]; [congruence |].
      apply (IH (S a) j t H k tk); [lia | exact Hnth].
  - intros H k tk Hk Hnth.
    destruct (Z.eq_dec k (start - Z.of_nat a)) as [-> | Hne]; [congruence |].
    apply (IH (S a) j t H k tk); [lia | exact Hnth].
Qed.

(** X15: [_find_antecedent] returns the candidate nearest to the pronoun
    among the 19 tokens before it (a noun or proper noun that is neither
    [pobj] nor [poss]), and it returns nothing exactly when none of these
    tokens is a candidate. *)
Theorem find_antecedent_is_nearest :
  forall (i : nat) (doc : Doc),
    match Pronoun._find_antecedent i doc with
    | Some (j, t) =>
        (Z.of_nat i - 19 <= j <= Z.of_nat i - 1)%Z /\ (0 <= j)%Z
        /\ nth_error (doc_tokens doc) (Z.to_nat j) = Some t
        /\ Pronoun.candidate t = true
        /\ forall k tk, (j < k <= Z.of_nat i - 1)%Z ->
                        nth_error (doc_tokens doc) (Z.to_nat k) = Some tk ->
                        Pronoun.candidate tk = false
    | None =>
        forall k tk, (Z.of_nat i - 19 <= k <= Z.of_nat i - 1)%Z -> (0 <= k)%Z ->
                     nth_error (doc_tokens doc) (Z.to_nat k) = Some tk ->
                     Pronoun.candidate tk = false
    end.
Proof.
  intros i doc.
  destruct (Pronoun._find_antecedent i doc) as [[j t] |] eqn:Hfind.
  - destruct (find_antecedent_window i doc j t Hfind) as [Hwin [H0 [Hnth Hc]]].
    repeat split; try assumption; try lia.
    intros k tk Hk.
    unfold Pronoun._find_antecedent, Pronoun.range_down in Hfind.
    apply (first_candidate_scan doc _ _ 0 j t Hfind). cbn. lia.
  - exact (find_antecedent_none i doc Hfind).
Qed.

(** The forms [_expected_pronoun] can return are the ten pronouns. *)
Lemma expected_pronoun_values (ant : Token.t) (i : nat) (pron : Token.t) (doc : Doc)
  (expected : string) :
  Pronoun._expected_pronoun ant i pron doc = Some expected ->
  In expected Pronoun.PRONOUNS.
Proof.
  unfold Pronoun._expected_pronoun.
  repeat match goal with
         | |- context [if ?b then _ else _] => destruct b
         end;
    cbn; intros [= <-]; tauto.
Qed.

(** X16: a pronoun is rewritten only if it is tagged PRON and is one of
    the ten pronouns of the stage; the replacement is another of the ten
    pronouns, capitalized exactly when the replaced pronoun starts with a
    capital, followed by the whitespace of the replaced token, and the edit
    records phase 8 and confidence 0.99. *)
Theorem pronoun_replaced_by_another_pronoun :
  forall (doc : Doc) (i : nat) (token : Token.t) (fixed_ws : string) (e : Edit),
    Pronoun.fix_token doc i token = Some (fixed_ws, e) ->
    Token.pos_ token = "PRON"
    /\ In (lower (Token.text token)) Pronoun.PRONOUNS
    /\ exists expected,
         In expected Pronoun.PRONOUNS
         /\ expected <> lower (Token.text token)
         /\ fixed_ws
            = ((match Token.text token with
                | String c0 _ => if char_isupper c0 then capitalize expected else expected
                | EmptyString => expected
                end) ++ Token.whitespace_ token)%string
         /\ e_phase e = Some 8%Z /\ e_confidence e = Some 0.99%float.
Proof.
  intros doc i token fixed_ws e. unfold Pronoun.fix_token.
  destruct (String.eqb_spec (Token.pos_ token) "PRON") as [Hpos | _];
    cbn [negb]; [| discriminate].
  destruct (mem (lower (Token.text token)) Pronoun.PRONOUNS) eqn:Hmem;
    cbn [negb]; [| discriminate].
  destruct (Pronoun._find_antecedent i doc) as [[j antecedent] |]; [| discriminate].
  destruct (negb (Token.truthy antecedent)); [discriminate |].
  destruct (Pronoun._expected_pronoun antecedent i token doc) as [expected |] eqn:Hexp;
    [| discriminate].
  destruct (String.eqb expected ""); cbn [orb]; [discriminate |].
  apply expected_pronoun_values in Hexp.
  assert (Hlower : lower expected = expected).
  { simpl in Hexp.
    repeat (destruct Hexp as [<- | Hexp]; [reflexivity |]). contradiction. }
  rewrite Hlower.
  destruct (String.eqb_spec expected (lower (Token.text token))) as [| Hne];
    [discriminate |].
  intros [= <- <-].
  split; [exact Hpos |]. split; [now apply mem_In |].
  exists expected. repeat split; assumption.
Qed.

Lemma pronoun_replaced_by_another_pronoun_witness :
  exists expected,
    In expected Pronoun.PRONOUNS /\ expected <> "he"
    /\ "she" = (expected ++ "")%string.
Proof.
  destruct (pronoun_replaced_by_another_pronoun (Fixtures.mary_then_he 18) 19
              (Fixtures.tok "he" "" "PRON" "PRP" "dep" "he" [] [])
              "she"
              (edit (Some 8%Z) (Some 0.99%float)
                 [("span", VSpan 95 97); ("orig", VStr "he"); ("repl", VStr "she");
                  ("antecedent", VStr "Mary")]))
    as [_ [_ [expected [Hin [Hne [Hfixed _]]]]]].
  - vm_compute. reflexivity.
  - exists expected. repeat split; assumption.
Defined.

(** ** Phase 9: the contrast test and the loop over the sentences *)

(** X17: the contrast test does not depend on the order of the two
    sentences. *)
Theorem contrast_is_symmetric :
  forall p c : string, Conjunctions._is_contrast p c = Conjunctions._is_contrast c p.
Proof.
  intros p c. unfold Conjunctions._is_contrast.
  repeat match goal with
         | |- context [Conjunctions.any_in ?s ?words] =>
             destruct (Conjunctions.any_in s words)
         end;
    reflexivity.
Qed.

(** One turn of the loop appends one text that ends with the sentence,
    and at most one edit, of confidence 0.99 and without a phase. *)
Lemma connect_appends (prev curr : string) (enhanced : list string) :
  exists (before : string) (new_issues : list Edit),
    Conjunctions.connect prev curr enhanced
    = ((enhanced ++ [(before ++ curr)%string])%list, new_issues)
    /\ List.length new_issues <= 1
    /\ Forall (fun e => e_phase e = None /\ e_confidence e = Some 0.99%float) new_issues.
Proof.
  unfold Conjunctions.connect.
  destruct (Conjunctions._choose_connector prev curr) as [connector reason].
  destruct (negb (String.eqb connector "")).
  - set (conn := if Conjunctions.ends_sentence prev
                  then capitalize connector else connector).
    destruct (negb (startswith (lower curr) conn)).
    + exists (" " ++ conn ++ ", ")%string. eexists. split.
      * rewrite !append_assoc. reflexivity.
      * split; [cbn [List.length]; lia | repeat constructor].
    + exists " ". eexists. split; [reflexivity |].
      split; [cbn [List.length]; lia | repeat constructor].
  - exists " ", []. split; [reflexivity |]. split; [cbn [List.length]; lia | constructor].
Qed.

(** X18: the loop over the sentences keeps every sentence, in order: it
    appends to [enhanced] one text per sentence, which ends with that
    sentence, and it records at most one edit per sentence, each of
    confidence 0.99 and without a phase number. *)
Theorem connect_all_keeps_sentences :
  forall (sentences : list string) (prev : string) (enhanced : list string)
         (issues : list Edit),
  exists (added : list string) (new_issues : list Edit),
    Conjunctions.connect_all prev sentences enhanced issues
    = ((enhanced ++ added)%list, (issues ++ new_issues)%list)
    /\ Forall2 (fun new_sent curr => exists before, new_sent = (before ++ curr)%string)
               added sentences
    /\ List.length new_issues <= List.length sentences
    /\ Forall (fun e => e_phase e = None /\ e_confidence e = Some 0.99%float) new_issues.
Proof.
  induction sentences as [| curr sentences IH]; intros prev enhanced issues.
  - exists [], []. cbn [Conjunctions.connect_all]. rewrite !app_nil_r.
    repeat split; constructor.
  - cbn [Conjunctions.connect_all].
    destruct (connect_appends prev curr enhanced)
      as [before [new_issues [-> [Hlen Hall]]]].
    destruct (IH curr (enhanced ++ [(before ++ curr)%string])%list
                (issues ++ new_issues)%list)
      as [added [later [-> [Hadded [Hlater Hall']]]]].
    exists ((before ++ curr)%string :: added), (new_issues ++ later)%list.
    rewrite <- !app_assoc. split; [reflexivity |].
    split; [constructor; [now exists before | exact Hadded] |].
    split; [rewrite length_app; cbn [List.length]; lia |].
    apply Forall_app. split; assumption.
Qed.

(** ** Phase 10: the article by the first letter *)

(** The acronym pattern needs two capital letters at the start. *)
Lemma acronym_needs_two_capitals (word : string) :
  Reference.two_capitals word = false ->
  Re.match_ false Articles.acronym_re word = false.
Proof.
  unfold Re.match_, Re.match_here, Articles.acronym_re, Re.AtLeast2.
  cbn [Re.rmatch Re.prev]. unfold Re.step1, Re.cls_match. cbn [Re.rest Re.groups].
  destruct word as [| a [| b rest]]; [reflexivity | |].
  - intros _. destruct (char_isupper a); reflexivity.
  - cbn [Reference.two_capitals]. intros H.
    destruct (char_isupper a); [| reflexivity].
    cbn [andb] in H. rewrite H. reflexivity.
Qed.

(** X19: for a word that does not begin with two capitals and is in
    neither exception list, [_choose_article] goes by the first letter of
    the stripped, lower-cased word: "an" before a vowel letter, "a" before
    any other character but "h". *)
Theorem article_follows_first_letter :
  forall (word : string) (c : ascii) (rest : string),
    lower (strip word) = String c rest ->
    mem (lower (strip word)) Articles.AN_BEFORE_H = false ->
    mem (lower (strip word)) Articles.A_BEFORE_U = false ->
    Reference.two_capitals word = false ->
    (Reference.vowel c = true -> Articles._choose_article word = "an")
    /\ (Reference.vowel c = false -> c <> "h"%char ->
        Articles._choose_article word = "a").
Proof.
  intros word c rest Hw Hh Hu Hcaps. unfold Articles._choose_article.
  rewrite Hh, Hu, (acronym_needs_two_capitals word Hcaps), Hw.
  replace (String.eqb (String c rest) "") with false by reflexivity.
  unfold Re.match_, Re.match_here, Articles.vowel_re, Articles.silent_h_re, Re.OneOf.
  cbn [Re.rmatch Re.prev]. unfold Re.step1, Re.cls_match, Re.chr_match.
  cbn [Re.rest Re.groups]. fold (Reference.vowel c).
  split.
  - intros ->. reflexivity.
  - intros -> Hc.
    destruct (Ascii.eqb_spec "h" c) as [<- | _]; [contradiction | reflexivity].
Qed.

Lemma article_follows_first_letter_witness :
  Articles._choose_article "Umbrella" = "an" /\ Articles._choose_article " banana" = "a".
Proof.
  split.
  - apply (proj1 (article_follows_first_letter "Umbrella" "u" "mbrella"
                    eq_refl eq_refl eq_refl eq_refl)).
    reflexivity.
  - apply (proj2 (article_follows_first_letter " banana" "b" "anana"
                    eq_refl eq_refl eq_refl eq_refl)).
    + reflexivity.
    + discriminate.
Defined.

(** ** The stages on a blank text *)

(** X20: on a blank text no stage calls the annotator or the checker and
    none records an issue; the stages of phases 6, 7 and 10 return the empty
    text, those of phases 8 and 9 the text they were given. *)
Theorem blank_text_in_every_stage :
  forall (nlp model : Annotator) (tool : ToolCorrect) (tool_check : ToolCheck)
         (gf : Gramformer) (fuel : nat) (text : string),
    strip text = "" ->
    SubjectVerb.correct nlp tool fuel text
    = Ok {| corrected_text := Some ""; issues_found := Some [];
            confidence := Some 1%float; dominant_tense := None |}
    /\ Tense.correct nlp tool_check tool gf model text
       = {| corrected_text := Some ""; issues_found := Some [];
            confidence := Some 1%float; dominant_tense := Some "present" |}
    /\ Pronoun.correct nlp text
       = {| corrected_text := Some text; issues_found := Some [];
            confidence := None; dominant_tense := None |}
    /\ Conjunctions.correct nlp text
       = {| corrected_text := Some text; issues_found := Some [];
            confidence := None; dominant_tense := None |}
    /\ Articles.correct nlp tool text
       = {| corrected_text := Some ""; issues_found := Some [];
            confidence := Some 1%float; dominant_tense := None |}.
Proof.
  intros nlp model tool tool_check gf fuel text Hblank.
  assert (Hclean : Utils.preprocess_text text = "").
  { unfold Utils.preprocess_text. now rewrite Hblank. }
  unfold SubjectVerb.correct, Tense.correct, Pronoun.correct, Conjunctions.correct,
    Articles.correct.
  rewrite Hclean, Hblank. repeat split.
Qed.

Lemma blank_text_in_every_stage_witness :
  SubjectVerb.correct Fixtures.team_nlp Fixtures.quiet_correct 0 "   "
  = Ok {| corrected_text := Some ""; issues_found := Some [];
          confidence := Some 1%float; dominant_tense := None |}
  /\ Pronoun.correct Fixtures.team_nlp "   "
     = {| corrected_text := Some "   "; issues_found := Some [];
          confidence := None; dominant_tense := None |}.
Proof.
  destruct (blank_text_in_every_stage Fixtures.team_nlp Fixtures.team_nlp
              Fixtures.quiet_correct Fixtures.quiet_check None 0 "   " eq_refl)
    as [H6 [_ [H8 _]]].
  split; assumption.
Defined.
